(** * tempofs: HTTP range-backed streams and the read-only filesystem bridge

    A shallow embedding of [http_file.py] (class [HTTPRangeFile]) and of
    [tempofs.py] (classes [webfile] and [tempofs]).

    Python integers are [Z], [bytes]/[bytearray] values are [list byte],
    [str] values are [string] (a character above 127 stands for a non-ASCII
    code point).  Methods run in a state-and-exception monad: the state is
    the part of the world a method can observe or change (the requests sent,
    the log records written, the directory entries replied, and for a stream
    the object [self]); a raised exception keeps the state reached when it
    was raised.  The HTTP peer is a function from the requests seen so far
    and the current request to a response, so that a resource may change
    between two probes; every request is answered, so the exceptions of the
    transport itself (no connection, timeout) are outside the model and the
    statements below are about what happens once a response has arrived. *)

From stdpp Require Import gmap strings list pretty.
From Stdlib Require Import ZArith Strings.Byte.

Local Open Scope Z_scope.

(** ** Exceptions and the monad *)

Inductive errno : Set := ENOENT | EACCES.

Inductive exn : Type :=
  | HTTPError (status : Z)          (* requests.HTTPError, from raise_for_status *)
  | ValueError (msg : string)
  | OSError (msg : string)
  | KeyError (key : string)
  | IndexError
  | AssertionError
  | UnicodeEncodeError
  | FUSEError (code : errno).       (* pyfuse3.FUSEError *)

Inductive result (A : Type) : Type :=
  | Ok (a : A)
  | Raise (e : exn).
Arguments Ok {A} a.
Arguments Raise {A} e.

Definition M (S A : Type) : Type := S -> result A * S.

Definition ret {S A} (a : A) : M S A := fun s => (Ok a, s).

Definition raise {S A} (e : exn) : M S A := fun s => (Raise e, s).

Definition bind {S A B} (m : M S A) (k : A -> M S B) : M S B :=
  fun s => match m s with
           | (Ok a, s') => k a s'
           | (Raise e, s') => (Raise e, s')
           end.

(** [try: m except e: h] for a single exception class, decided by [catches]. *)
Definition try_except {S A} (m : M S A) (catches : exn -> bool) (h : M S A) : M S A :=
  fun s => match m s with
           | (Raise e, s') => if catches e then h s' else (Raise e, s')
           | r => r
           end.

Definition modify {S} (f : S -> S) : M S unit := fun s => (Ok tt, f s).

(** Run a computation on one component of a pair state. *)
Definition on_snd {S W A} (m : M W A) : M (S * W) A :=
  fun s => let '(r, w') := m (snd s) in (r, (fst s, w')).

Definition of_result {S A} (r : result A) : M S A := fun s => (r, s).

Declare Scope py_scope.
Delimit Scope py_scope with py.
Notation "x <- c ;; k" := (bind c (fun x => k))
  (at level 100, c at next level, right associativity) : py_scope.
Notation "c ;;; k" := (bind c (fun _ => k))
  (at level 100, right associativity) : py_scope.
Local Open Scope py_scope.

Definition is_IndexError (e : exn) : bool :=
  match e with IndexError => true | _ => false end.

Definition is_KeyError (e : exn) : bool :=
  match e with KeyError _ => true | _ => false end.

(** ** The HTTP peer, the log and the world *)

Record response : Type := Response {
  status_code : Z;
  headers : gmap string string;     (* keys as the server's header names *)
  content : list byte
}.

(** A ranged GET carries the header [Range: bytes=<first>-<last>]. *)
Inductive request : Type :=
  | HEAD (url : string)
  | GET (url : string) (first last : Z).

(** The [Range] header value the source formats: ["bytes=%d-%d"]. *)
Definition range_value (first last : Z) : string :=
  "bytes=" +:+ pretty first +:+ "-" +:+ pretty last.

Definition request_headers (r : request) : list (string * string) :=
  match r with
  | HEAD _ => []
  | GET _ first last => [("Range", range_value first last)]
  end.

Definition network : Type := list request -> request -> response.

Inductive level : Set := WARNING | DEBUG.

Inductive message : Type :=
  | UnknownAcceptRanges (value : string)  (* "Unknown Accept-Ranges value: %s" *)
  | NotSeekable (url : string)   (* "File at {url} is not seekable, seek operations may fail" *)
  | Nonseekable (name : string)           (* "File {name} is nonseekable" *)
  | OnlyReadSupported (flags : Z)         (* "Only read is supported: %s" *)
  | ReadCall (fh off size : Z).           (* "read(%d, %d, %d)" *)

(** [pyfuse3.EntryAttributes], the fields the source assigns. *)
Record EntryAttributes : Type := mkEntry {
  st_ino : Z;
  st_mode : Z;
  st_size : Z;
  st_ctime_ns : Z;
  st_atime_ns : Z;
  st_mtime_ns : Z;
  st_gid : Z;
  st_uid : Z
}.

(** One [pyfuse3.readdir_reply(token, name, attr, next_id)]. *)
Record dirent : Type := mkDirent {
  d_name : list byte;
  d_attr : EntryAttributes;
  d_next : Z
}.

Record world : Type := World {
  net : network;
  sent : list request;
  logged : list (level * message);
  replied : list dirent
}.

(** The world after one more request went out. *)
Definition sending (w : world) (r : request) : world :=
  World (net w) (sent w ++ [r]) (logged w) (replied w).

Definition send (r : request) : M world response :=
  fun w => (Ok (net w (sent w) r), sending w r).

Definition logging (w : world) (l : level) (m : message) : world :=
  World (net w) (sent w) (logged w ++ [(l, m)]) (replied w).

Definition log (l : level) (m : message) : M world unit :=
  modify (fun w => logging w l m).

Definition replying (w : world) (d : dirent) : world :=
  World (net w) (sent w) (logged w) (replied w ++ [d]).

Definition readdir_reply (name : list byte) (attr : EntryAttributes) (next : Z)
  : M world unit :=
  modify (fun w => replying w (mkDirent name attr next)).

(** [Response.raise_for_status] of the requests library: client and server
    error statuses raise, every other status passes. *)
Definition is_error_status (status : Z) : bool :=
  (400 <=? status) && (status <? 600).

Definition raise_for_status {S} (r : response) : M S unit :=
  if is_error_status (status_code r) then raise (HTTPError (status_code r))
  else ret tt.

(** ** What the source takes from its platform and libraries *)

Class Platform : Type := {
  ROOT_INODE : Z;                       (* pyfuse3.ROOT_INODE *)
  O_APPEND : Z;
  O_TRUNC : Z;
  O_RDWR : Z;
  O_WRONLY : Z;
  getuid : Z;
  getgid : Z;
  (* int(s) on a str: the number, or the exception it raises *)
  py_int : string -> result Z;
  (* parsedate_to_datetime(s).timestamp() * 1e9, kept as a number *)
  timestamp_ns : string -> result Z
}.

Definition len {A} (l : list A) : Z := Z.of_nat (length l).

(** [bytes(s, encoding="ascii")]. *)
Definition is_ascii_char (c : Ascii.ascii) : bool :=
  Nat.ltb (Ascii.nat_of_ascii c) 128.

Definition encode_ascii (s : string) : result (list byte) :=
  let cs := String.list_ascii_of_string s in
  if forallb is_ascii_char cs then Ok (map Ascii.byte_of_ascii cs)
  else Raise UnicodeEncodeError.

(** ** http_file.py: class HTTPRangeFile *)

Module HTTPRangeFile.

Record t : Type := mk {
  url : string;
  head : response;                  (* the probe response kept by __init__ *)
  size : Z;
  pos : Z;
  is_seekable_cache : option bool   (* the slot of the cached_property *)
}.

Definition state : Type := t * world.

Definition self : M state t := fun s => (Ok (fst s), s).

Definition with_pos (f : t) (p : Z) : t :=
  mk (url f) (head f) (size f) p (is_seekable_cache f).

Definition with_cache (f : t) (b : bool) : t :=
  mk (url f) (head f) (size f) (pos f) (Some b).

Definition set_pos (p : Z) : M state unit :=
  modify (fun s : state => (with_pos (fst s) p, snd s)).

Definition set_is_seekable_cache (b : bool) : M state unit :=
  modify (fun s : state => (with_cache (fst s) b, snd s)).

(** [int(self.head.headers.get("Content-Length", 0))] *)
Definition content_length `{Platform} (r : response) : result Z :=
  match headers r !! "Content-Length" with
  | Some v => py_int v
  | None => Ok 0
  end.

(** [__init__(self, url)]: the constructed object, or the exception. *)
Definition init `{Platform} (u : string) : M world t :=
  h <- send (HEAD u) ;;
  raise_for_status h ;;;
  sz <- of_result (content_length h) ;;
  ret (mk u h sz 0 None).

Definition silent_values : list string :=
  ["none"; "false"; "False"; "0"; "no"; "No"].

(** The body of the cached property [is_seekable]. *)
Definition is_seekable_body : M state bool :=
  f <- self ;;
  let seekable := bool_decide (headers (head f) !! "Accept-Ranges" = Some "bytes") in
  (if negb seekable then
     let accept_ranges := default "none" (headers (head f) !! "Accept-Ranges") in
     (if negb (bool_decide (accept_ranges ∈ silent_values)) then
        on_snd (log WARNING (UnknownAcceptRanges accept_ranges))
      else ret tt) ;;;
     on_snd (log WARNING (NotSeekable (url f)))
   else ret tt) ;;;
  ret seekable.

(** [cached_property]: the body runs on the first access only. *)
Definition is_seekable : M state bool :=
  f <- self ;;
  match is_seekable_cache f with
  | Some b => ret b
  | None => b <- is_seekable_body ;; set_is_seekable_cache b ;;; ret b
  end.

Definition seekable : M state bool := is_seekable.

Definition readable : M state bool := ret true.

(** [readinto(self, b)]: returns the count and the buffer as it was left;
    [b[:n] = data] replaces the first [n] items of [b] by [data]. *)
Definition readinto (b : list byte) : M state (Z * list byte) :=
  f <- self ;;
  if size f <=? pos f then ret (0, b)
  else
    let last := Z.min (pos f + len b - 1) (size f - 1) in
    resp <- on_snd (send (GET (url f) (pos f) last)) ;;
    raise_for_status resp ;;;
    let data := content resp in
    let n := len data in
    let b' := data ++ drop (Z.to_nat n) b in
    f' <- self ;;
    set_pos (pos f' + n) ;;;
    ret (n, b').

Definition read (sz : Z) : M state (list byte) :=
  if sz <? 0 then
    f <- self ;;
    if size f <=? pos f then ret []
    else
      let last := size f - 1 in
      resp <- on_snd (send (GET (url f) (pos f) last)) ;;
      raise_for_status resp ;;;
      let data := content resp in
      f' <- self ;;
      set_pos (pos f' + len data) ;;;
      ret data
  else if sz =? 0 then ret []
  else
    let buffer := replicate (Z.to_nat sz) x00 in
    r <- readinto buffer ;;
    let n := fst r in
    let buffer := snd r in
    let buffer := if n <? sz then take (Z.to_nat n) buffer else buffer in
    ret buffer.


Definition SEEK_SET : Z := 0.
Definition SEEK_CUR : Z := 1.
Definition SEEK_END : Z := 2.

Definition seek (offset whence : Z) : M state Z :=
  f <- self ;;
  newpos <- (if whence =? SEEK_SET then ret offset
             else if whence =? SEEK_CUR then ret (pos f + offset)
             else if whence =? SEEK_END then ret (size f + offset)
             else raise (ValueError "invalid whence")) ;;
  if newpos <? 0 then raise (OSError "Negative seek position")
  else
    set_pos newpos ;;;
    f' <- self ;;
    ret (pos f').

Definition tell : M state Z :=
  f <- self ;;
  ret (pos f).

End HTTPRangeFile.

(** ** tempofs.py: class webfile *)

Definition S_IFREG : Z := 0x8000.     (* stat.S_IFREG, 0o100000 *)
Definition S_IFDIR : Z := 0x4000.     (* stat.S_IFDIR, 0o040000 *)
Definition mode_444 : Z := 0x124.     (* 0o444 *)
Definition mode_755 : Z := 0x1ed.     (* 0o755 *)

(** A fresh [pyfuse3.EntryAttributes()], before the source assigns to it. *)
Definition EntryAttributes_new : EntryAttributes := mkEntry 0 0 0 0 0 0 0 0.

Record FileInfo : Type := mkFileInfo {
  fh : Z;
  keep_cache : bool;
  nonseekable : bool
}.

(** Truth value of a Python integer. *)
Definition truthy (z : Z) : bool := negb (z =? 0).

(** [l[i]] on a Python list: a negative index counts from the end. *)
Definition py_index {A} (l : list A) (i : Z) : result A :=
  let j := if i <? 0 then i + len l else i in
  if (j <? 0) || (len l <=? j) then Raise IndexError
  else match l !! Z.to_nat j with
       | Some x => Ok x
       | None => Raise IndexError
       end.

Module webfile.

Record t : Type := mk {
  inode : Z;
  name : string;
  url : string
}.

Definition getattr `{Platform} (f : t) : M world EntryAttributes :=
  let entry := EntryAttributes_new in
  let ino := inode f in
  r <- send (HEAD (url f)) ;;
  let mode := Z.lor S_IFREG mode_444 in
  last_modified <-
    try_except
      (v <- of_result (match headers r !! "Last-Modified" with
                       | Some v => Ok v
                       | None => Raise (KeyError "Last-Modified")
                       end) ;;
       of_result (timestamp_ns v))
      is_KeyError
      (ret 0) ;;
  sz <- of_result (match headers r !! "Content-Length" with
                   | Some v => py_int v
                   | None => Ok 0
                   end) ;;
  ret (mkEntry ino mode sz last_modified last_modified last_modified
               (st_gid entry) (st_uid entry)).

Definition silent_values : list string :=
  ["none"; "false"; "False"; "0"; "no"; "No"].

(** [getfileinfo]: [headers.get("Accept-Ranges", True)] is a header value
    or the boolean [True]; the latter is printed as "True". *)
Definition getfileinfo (f : t) : M world FileInfo :=
  r <- send (HEAD (url f)) ;;
  let v := headers r !! "Accept-Ranges" in
  ns <- (if bool_decide (v = Some "bytes") then ret false
         else
           (match v with
            | Some s =>
                if negb (bool_decide (s ∈ silent_values))
                then log WARNING (UnknownAcceptRanges s)
                else ret tt
            | None => log WARNING (UnknownAcceptRanges "True")
            end) ;;;
           ret true) ;;
  (if ns : bool then log WARNING (Nonseekable (name f)) else ret tt) ;;;
  ret (mkFileInfo (inode f) true ns).

Definition open (f : t) : M world unit := ret tt.

Definition read (f : t) (off sz : Z) : M world (list byte) :=
  r <- send (GET (url f) off (off + sz - 1)) ;;
  ret (content r).

End webfile.

(** ** tempofs.py: class tempofs *)

(** The value [lookup] returns: the coroutine of [file.getattr()], which the
    source hands back without awaiting it. *)
Inductive coroutine : Type :=
  | getattr_of (f : webfile.t).

Module tempofs.

Record t : Type := mk { files : list webfile.t }.

(** [__init__], from the name -> url items of the configuration in order. *)
Definition init `{Platform} (config : list (string * string)) : t :=
  mk (fold_left
        (fun fs item =>
           let ino := ROOT_INODE + 1 + len fs in
           fs ++ [webfile.mk ino (fst item) (snd item)])
        config []).

Fixpoint find_in (fs : list webfile.t) (ino : Z) : result webfile.t :=
  match fs with
  | [] => Raise IndexError
  | f :: rest => if webfile.inode f =? ino then Ok f else find_in rest ino
  end.

Definition find (self : t) (ino : Z) : result webfile.t :=
  find_in (files self) ino.

Fixpoint getattr_in `{Platform} (fs : list webfile.t) (ino : Z)
  : M world EntryAttributes :=
  match fs with
  | [] => raise (FUSEError ENOENT)
  | f :: rest =>
      if webfile.inode f =? ino then
        e <- webfile.getattr f ;;
        ret (mkEntry ino (st_mode e) (st_size e)
                     (st_ctime_ns e) (st_atime_ns e) (st_mtime_ns e)
                     getgid getuid)
      else getattr_in rest ino
  end.

Definition getattr `{Platform} (self : t) (ino : Z) : M world EntryAttributes :=
  let entry := EntryAttributes_new in
  if ino =? ROOT_INODE then
    ret (mkEntry ino (Z.lor S_IFDIR mode_755) 0
                 (st_ctime_ns entry) (st_atime_ns entry) (st_mtime_ns entry)
                 getgid getuid)
  else getattr_in (files self) ino.

Fixpoint lookup_in (fs : list webfile.t) (nm : string) : M world coroutine :=
  match fs with
  | [] => raise (FUSEError ENOENT)
  | f :: rest => if bool_decide (webfile.name f = nm) then ret (getattr_of f)
                 else lookup_in rest nm
  end.

Definition lookup `{Platform} (self : t) (parent_inode : Z) (nm : string)
  : M world coroutine :=
  if negb (parent_inode =? ROOT_INODE) then raise (FUSEError ENOENT)
  else lookup_in (files self) nm.

Definition opendir `{Platform} (self : t) (ino : Z) : M world Z :=
  if negb (ino =? ROOT_INODE) then raise (FUSEError ENOENT)
  else ret ino.

Definition readdir `{Platform} (self : t) (handle start_id : Z) : M world unit :=
  if negb (handle =? ROOT_INODE) then raise AssertionError
  else
    try_except
      (f <- of_result (py_index (files self) start_id) ;;
       nm <- of_result (encode_ascii (webfile.name f)) ;;
       attr <- webfile.getattr f ;;
       readdir_reply nm attr (start_id + 1))
      is_IndexError
      (raise (FUSEError ENOENT)).

Definition write_intent `{Platform} (flags : Z) : bool :=
  truthy (Z.land flags O_APPEND)
  || truthy (Z.land flags O_TRUNC)
  || truthy (Z.land flags O_RDWR)
  || truthy (Z.land flags O_WRONLY).

Definition open `{Platform} (self : t) (ino flags : Z) : M world FileInfo :=
  if write_intent flags then
    log WARNING (OnlyReadSupported flags) ;;;
    raise (FUSEError EACCES)
  else
    try_except
      (f <- of_result (find self ino) ;;
       webfile.getfileinfo f)
      is_IndexError
      (raise (FUSEError ENOENT)).

Definition read (self : t) (handle off sz : Z) : M world (list byte) :=
  log DEBUG (ReadCall handle off sz) ;;;
  f <- of_result (find self handle) ;;
  webfile.read f off sz.

End tempofs.

(** ** Concrete platform and peers used in examples *)

Fixpoint digits (cs : list Ascii.ascii) (acc : Z) : result Z :=
  match cs with
  | [] => Ok acc
  | c :: rest =>
      let n := Z.of_nat (Ascii.nat_of_ascii c) in
      if (48 <=? n) && (n <=? 57) then digits rest (10 * acc + (n - 48))
      else Raise (ValueError "invalid literal for int()")
  end.

(** Decimal literals without sign or blanks, a fragment of [int()]. *)
Definition decimal (s : string) : result Z :=
  match String.list_ascii_of_string s with
  | [] => Raise (ValueError "invalid literal for int()")
  | cs => digits cs 0
  end.

Definition linux : Platform := {|
  ROOT_INODE := 1;
  O_APPEND := 0x400;
  O_TRUNC := 0x200;
  O_RDWR := 2;
  O_WRONLY := 1;
  getuid := 1000;
  getgid := 1000;
  py_int := decimal;
  timestamp_ns := fun _ => Ok 0
|}.

Definition probe_headers (body : list byte) (accept_ranges : option string)
  : gmap string string :=
  let h := {[ "Content-Length" := pretty (len body) ]} in
  match accept_ranges with
  | Some v => <[ "Accept-Ranges" := v ]> h
  | None => h
  end.

(** A peer that serves one fixed body and honours byte ranges. *)
Definition range_server (body : list byte) (accept_ranges : option string)
  : network :=
  fun _ r =>
    match r with
    | HEAD _ => Response 200 (probe_headers body accept_ranges) []
    | GET _ first last =>
        if (0 <=? first) && (first <=? last) && (first <? len body)
        then Response 206 ∅
               (take (Z.to_nat (last - first + 1)) (drop (Z.to_nat first) body))
        else Response 416 ∅ []
    end.

(** A peer without range support: every GET is answered by the whole body. *)
Definition whole_body_server (body : list byte) : network :=
  fun _ r =>
    match r with
    | HEAD _ => Response 200 (probe_headers body None) []
    | GET _ _ _ => Response 200 ∅ body
    end.

(** A peer on which every GET fails with 404 and an error page. *)
Definition not_found_server (page : list byte) : network :=
  fun _ r =>
    match r with
    | HEAD _ => Response 200 ∅ []
    | GET _ _ _ => Response 404 ∅ page
    end.

Definition quiet (n : network) : world := World n [] [] [].

Definition hello : list byte := [x68; x65; x6c; x6c; x6f].

Definition observe {A} (r : result A * world)
  : result A * list request * list (level * message) * list dirent :=
  (fst r, sent (snd r), logged (snd r), replied (snd r)).

(** ** Vocabulary of the statements *)

(** The position a seek aims at: [offset] from the start, [pos + offset]
    from the current position, [size + offset] from the end. *)
Inductive seek_target (f : HTTPRangeFile.t) (offset : Z) : Z -> Z -> Prop :=
  | from_start : seek_target f offset HTTPRangeFile.SEEK_SET offset
  | from_current :
      seek_target f offset HTTPRangeFile.SEEK_CUR (HTTPRangeFile.pos f + offset)
  | from_end :
      seek_target f offset HTTPRangeFile.SEEK_END (HTTPRangeFile.size f + offset).

Definition recognized_whence (whence : Z) : Prop :=
  whence = HTTPRangeFile.SEEK_SET \/ whence = HTTPRangeFile.SEEK_CUR
  \/ whence = HTTPRangeFile.SEEK_END.

(** The calls a holder of a stream can make, and the state each leaves,
    whether it returned or raised. *)
Inductive call : Type :=
  | Read (n : Z)
  | ReadInto (b : list byte)
  | Seek (offset whence : Z)
  | Tell
  | Seekable
  | Readable.

Definition perform (c : call) (s : HTTPRangeFile.state) : HTTPRangeFile.state :=
  match c with
  | Read n => snd (HTTPRangeFile.read n s)
  | ReadInto b => snd (HTTPRangeFile.readinto b s)
  | Seek offset whence => snd (HTTPRangeFile.seek offset whence s)
  | Tell => snd (HTTPRangeFile.tell s)
  | Seekable => snd (HTTPRangeFile.seekable s)
  | Readable => snd (HTTPRangeFile.readable s)
  end.

Definition perform_all (cs : list call) (s : HTTPRangeFile.state)
  : HTTPRangeFile.state :=
  fold_left (fun s c => perform c s) cs s.

(** A peer that never answers a ranged GET with more bytes than the range
    spans. *)
Definition honours_ranges (n : network) : Prop :=
  forall history u first last,
    len (content (n history (GET u first last))) <= Z.max 0 (last - first + 1).

(** The most a read of [n] may return at position [p] of [s] bytes; a
    negative [n] asks for everything that remains. *)
Definition read_bound (n p s : Z) : Z :=
  if n <? 0 then Z.max 0 (s - p) else Z.max 0 (Z.min n (s - p)).

(** A caller listing the root: it starts [readdir] at [start] and resumes at
    the index of the last reply until [readdir] fails with ENOENT, and gives
    the index at which that happened.  [None]: out of fuel, or [readdir]
    failed otherwise or replied nothing. *)
Fixpoint list_root `{Platform} (fuel : nat) (self : tempofs.t) (start : Z)
  (w : world) : option (Z * world) :=
  match fuel with
  | O => None
  | S k =>
      match tempofs.readdir self ROOT_INODE start w with
      | (Ok _, w') =>
          match last (replied w') with
          | Some d => list_root k self (d_next d) w'
          | None => None
          end
      | (Raise (FUSEError ENOENT), w') => Some (start, w')
      | (Raise _, _) => None
      end
  end.

Definition ascii_bytes (s : string) : list byte :=
  map Ascii.byte_of_ascii (String.list_ascii_of_string s).

Definition is_ascii (s : string) : Prop :=
  forallb is_ascii_char (String.list_ascii_of_string s) = true.

(** Every attribute probe of a configured file succeeds, whatever was sent
    before it. *)
Definition probes_succeed `{Platform} (self : tempofs.t) (w : world) : Prop :=
  forall f w', f ∈ tempofs.files self -> net w' = net w ->
               exists attr, fst (webfile.getattr f w') = Ok attr.

Definition names_of (fs : list webfile.t) : list (list byte) :=
  map (fun f => ascii_bytes (webfile.name f)) fs.

(** The write-intent bits of an [open]. *)
Definition has_write_intent `{Platform} (flags : Z) : Prop :=
  Z.land flags O_APPEND <> 0 \/ Z.land flags O_TRUNC <> 0
  \/ Z.land flags O_RDWR <> 0 \/ Z.land flags O_WRONLY <> 0.

Definition unknown_inode (self : tempofs.t) (ino : Z) : Prop :=
  forall f, f ∈ tempofs.files self -> webfile.inode f <> ino.

Definition unknown_name (self : tempofs.t) (nm : string) : Prop :=
  forall f, f ∈ tempofs.files self -> webfile.name f <> nm.

(** Streams and registries of the examples. *)
Definition stream_at (p : Z) (accept_ranges : option string) : HTTPRangeFile.t :=
  HTTPRangeFile.mk "http://h/f"
    (Response 200 (probe_headers hello accept_ranges) []) 5 p None.

Definition two_files : tempofs.t :=
  tempofs.mk [webfile.mk 2 "a" "http://h/a"; webfile.mk 3 "b" "http://h/b"].

(** A registry whose only name is the one character U+00E9. *)
Definition accented : tempofs.t :=
  tempofs.mk [webfile.mk 2 (String (Ascii.ascii_of_nat 233) EmptyString)
                         "http://h/e"].

(** ** http_file.py: open_http *)

(** [m in mode] on strings: [m] occurs in [mode]. *)
Definition py_in (m mode : string) : bool :=
  match String.index 0 m mode with
  | Some _ => true
  | None => false
  end.

Section OpenHttp.
  (** The io library: the buffered reader over a raw stream, the text
      wrapper over a buffered reader, and the value of
      [encoding or io.text_encoding or io.TextIOBase().encoding]. *)
  Context {Buffered Text Encoding : Type}.
  Variable BufferedReader : HTTPRangeFile.t -> Buffered.
  Variable TextIOWrapper :
    Buffered -> Encoding -> option string -> option string -> result Text.
  Variable encoding_or_default : option string -> Encoding.

Definition open_http `{Platform} (u mode : string)
  (encoding errors newline : option string) : M world (Buffered + Text) :=
  if existsb (fun m => py_in m mode) ["w"; "a"; "+"] then
    raise (ValueError "only read modes are supported ('rb' or 'r')")
  else
    raw <- HTTPRangeFile.init u ;;
    let buf := BufferedReader raw in
    if negb (py_in "b" mode) then
      let encoding := encoding_or_default encoding in
      t <- of_result (TextIOWrapper buf encoding errors newline) ;;
      ret (inr t)
    else ret (inl buf).

End OpenHttp.

(** ** More vocabulary of the statements *)

Definition is_read_call (c : call) : bool :=
  match c with
  | Read _ | ReadInto _ => true
  | _ => false
  end.

Definition is_ranged_get (u : string) (r : request) : bool :=
  match r with
  | GET u' _ _ => bool_decide (u' = u)
  | HEAD _ => false
  end.

(** The bytes a read of [n] is due at offset [p] of [body]: everything from
    [p] on for a negative [n], at most [n] bytes otherwise. *)
Definition chunk (body : list byte) (p n : Z) : list byte :=
  if n <? 0 then drop (Z.to_nat p) body
  else take (Z.to_nat n) (drop (Z.to_nat p) body).

(** The registry entry of the item at [index] of the configuration. *)
Definition entry_of `{Platform} (index : nat) (item : string * string)
  : webfile.t :=
  webfile.mk (ROOT_INODE + 1 + Z.of_nat index) (fst item) (snd item).


(** * Properties *)

(** ** The registry of the examples is the one [__init__] builds *)

Lemma init_two_files :
  @tempofs.init linux [("a", "http://h/a"); ("b", "http://h/b")] = two_files.
Proof. reflexivity. Qed.

(** Identifiers are [ROOT_INODE + 1 + index], in configuration order. *)
Lemma init_inodes `{Platform} (config : list (string * string)) :
  map webfile.inode (tempofs.files (tempofs.init config))
  = map (fun i => ROOT_INODE + 1 + Z.of_nat i) (seq 0 (length config))
  /\ map webfile.name (tempofs.files (tempofs.init config)) = map fst config.
Proof.
  unfold tempofs.init. cbn [tempofs.files].
  assert (G : forall items acc,
            let fs := fold_left
                        (fun fs item =>
                           fs ++ [webfile.mk (ROOT_INODE + 1 + len fs)
                                             (fst item) (snd item)])
                        items acc in
            map webfile.inode fs
            = map webfile.inode acc
              ++ map (fun i => ROOT_INODE + 1 + Z.of_nat i)
                     (seq (length acc) (length items))
            /\ map webfile.name fs = map webfile.name acc ++ map fst items).
  { induction items as [| item items IH]; intros acc; cbn.
    - now rewrite !app_nil_r.
    - destruct (IH (acc ++ [webfile.mk (ROOT_INODE + 1 + len acc)
                                       (fst item) (snd item)])) as [Hi Hn].
      cbn zeta in Hi, Hn. rewrite Hi, Hn, !map_app, length_app. cbn.
      rewrite <- !app_assoc. cbn. rewrite Nat.add_1_r. now split. }
  apply (G config []).
Qed.

(** ** Evaluation of the monad *)

Lemma bind_ok {S A B} (m : M S A) (k : A -> M S B) s a s' :
  m s = (Ok a, s') -> bind m k s = k a s'.
Proof. intros E. unfold bind. now rewrite E. Qed.

Lemma bind_raise {S A B} (m : M S A) (k : A -> M S B) s e s' :
  m s = (Raise e, s') -> bind m k s = (Raise e, s').
Proof. intros E. unfold bind. now rewrite E. Qed.

(** Case analysis on the comparison the goal branches on. *)
Ltac sign_case :=
  match goal with
  | |- context [?x <? ?y] => destruct (Z.ltb_spec x y)
  | |- context [?x <=? ?y] => destruct (Z.leb_spec x y)
  | |- context [?x =? ?y] => destruct (Z.eqb_spec x y)
  end.

Lemma len_nonneg {A} (l : list A) : 0 <= len l.
Proof. unfold len. lia. Qed.

(** Arithmetic in which every length is an unknown that is not negative. *)
Ltac len_lia :=
  repeat match goal with
         | |- context [@len ?A ?l] =>
             let k := fresh "k" in
             pose proof (len_nonneg l); set (k := @len A l) in *; clearbody k
         | H : context [@len ?A ?l] |- _ =>
             let k := fresh "k" in
             pose proof (len_nonneg l); set (k := @len A l) in *; clearbody k
         end;
  lia.

Lemma len_replicate {A} (n : Z) (x : A) : 0 <= n -> len (replicate (Z.to_nat n) x) = n.
Proof. intros Hn. unfold len. rewrite length_replicate. lia. Qed.

Lemma len_app {A} (l k : list A) : len (l ++ k) = len l + len k.
Proof. unfold len. rewrite length_app. lia. Qed.

(** What [read] does to the buffer [readinto] filled: the bytes received,
    whatever their number. *)
Lemma buffer_after_fill (data : list byte) (sz : Z) :
  0 < sz ->
  let b' := data ++ drop (Z.to_nat (len data)) (replicate (Z.to_nat sz) x00) in
  (if len data <? sz then take (Z.to_nat (len data)) b' else b') = data.
Proof.
  intros Hsz b'. subst b'. unfold len. rewrite Nat2Z.id.
  destruct (Z.ltb_spec (Z.of_nat (length data)) sz) as [Hlt | Hge].
  - now rewrite take_app_length.
  - rewrite drop_ge; [apply app_nil_r |].
    rewrite length_replicate. lia.
Qed.

(** ** The stream: read *)

Section Stream.
  Import HTTPRangeFile.

  Implicit Types (f : t) (w : world).

Lemma readinto_eof f w b :
  size f <= pos f -> readinto b (f, w) = (Ok (0, b), (f, w)).
Proof.
  intros H. unfold readinto, bind, self; simpl.
  destruct (Z.leb_spec (size f) (pos f)); [reflexivity | lia].
Qed.

Lemma readinto_fetch f w b :
  pos f < size f ->
  let rq := GET (url f) (pos f) (Z.min (pos f + len b - 1) (size f - 1)) in
  let resp := net w (sent w) rq in
  readinto b (f, w) =
    if is_error_status (status_code resp)
    then (Raise (HTTPError (status_code resp)), (f, sending w rq))
    else (Ok (len (content resp),
              content resp ++ drop (Z.to_nat (len (content resp))) b),
          (with_pos f (pos f + len (content resp)), sending w rq)).
Proof.
  intros H rq resp. unfold readinto, bind, self; simpl.
  destruct (Z.leb_spec (size f) (pos f)); [lia |].
  unfold on_snd, send, raise_for_status; simpl. fold rq. fold resp.
  now destruct (is_error_status (status_code resp)).
Qed.

Lemma read_zero f w : read 0 (f, w) = (Ok [], (f, w)).
Proof. reflexivity. Qed.

Lemma read_bounded_eof f w n :
  0 < n -> size f <= pos f -> read n (f, w) = (Ok [], (f, w)).
Proof.
  intros Hn H. unfold read.
  destruct (Z.ltb_spec n 0); [lia |].
  destruct (Z.eqb_spec n 0); [lia |].
  erewrite bind_ok by (apply readinto_eof; exact H). simpl.
  unfold ret. destruct (Z.ltb_spec 0 n); [reflexivity | lia].
Qed.

Lemma read_bounded_fetch f w n :
  0 < n -> pos f < size f ->
  let rq := GET (url f) (pos f) (Z.min (pos f + n - 1) (size f - 1)) in
  let resp := net w (sent w) rq in
  read n (f, w) =
    if is_error_status (status_code resp)
    then (Raise (HTTPError (status_code resp)), (f, sending w rq))
    else (Ok (content resp),
          (with_pos f (pos f + len (content resp)), sending w rq)).
Proof.
  intros Hn H rq resp. unfold read.
  destruct (Z.ltb_spec n 0); [lia |].
  destruct (Z.eqb_spec n 0); [lia |].
  pose proof (readinto_fetch f w (replicate (Z.to_nat n) x00) H) as E.
  simpl in E. rewrite len_replicate in E by lia. fold rq in E. fold resp in E.
  destruct (is_error_status (status_code resp)).
  - now rewrite (bind_raise _ _ _ _ _ E).
  - rewrite (bind_ok _ _ _ _ _ E). simpl. unfold ret.
    now rewrite (buffer_after_fill (content resp) n Hn).
Qed.

Lemma read_to_end_eof f w n :
  n < 0 -> size f <= pos f -> read n (f, w) = (Ok [], (f, w)).
Proof.
  intros Hn H. unfold read.
  destruct (Z.ltb_spec n 0); [| lia].
  unfold bind, self; cbn.
  destruct (Z.leb_spec (size f) (pos f)); [reflexivity | lia].
Qed.

Lemma read_to_end_fetch f w n :
  n < 0 -> pos f < size f ->
  let rq := GET (url f) (pos f) (size f - 1) in
  let resp := net w (sent w) rq in
  read n (f, w) =
    if is_error_status (status_code resp)
    then (Raise (HTTPError (status_code resp)), (f, sending w rq))
    else (Ok (content resp),
          (with_pos f (pos f + len (content resp)), sending w rq)).
Proof.
  intros Hn H rq resp. unfold read.
  destruct (Z.ltb_spec n 0); [| lia].
  unfold bind, self; cbn.
  destruct (Z.leb_spec (size f) (pos f)); [lia |].
  unfold on_snd, send, raise_for_status; cbn. fold rq. fold resp.
  now destruct (is_error_status (status_code resp)).
Qed.

End Stream.

Section StreamClaims.
  Import HTTPRangeFile.

  Implicit Types (f : t) (w : world).


End StreamClaims.



Section SeekClaims.
  Import HTTPRangeFile.

  Implicit Types (f : t) (w : world).

Lemma seek_to f w offset whence p :
  seek_target f offset whence p -> 0 <= p ->
  seek offset whence (f, w) = (Ok p, (with_pos f p, w)).
Proof.
  intros T Hp. unfold seek, bind, self, set_pos, modify, ret; cbn.
  destruct T; cbn; sign_case; (lia || reflexivity).
Qed.

Lemma seek_negative f w offset whence p :
  seek_target f offset whence p -> p < 0 ->
  seek offset whence (f, w) = (Raise (OSError "Negative seek position"), (f, w)).
Proof.
  intros T Hp. unfold seek, bind, self, set_pos, modify, ret, raise; cbn.
  destruct T; cbn; sign_case; (lia || reflexivity).
Qed.

Lemma seek_bad_whence f w offset whence :
  ~ recognized_whence whence ->
  seek offset whence (f, w) = (Raise (ValueError "invalid whence"), (f, w)).
Proof.
  intros N. unfold recognized_whence in N.
  unfold seek, bind, self, raise; cbn.
  destruct (Z.eqb_spec whence SEEK_SET); [tauto |].
  destruct (Z.eqb_spec whence SEEK_CUR); [tauto |].
  destruct (Z.eqb_spec whence SEEK_END); [tauto | reflexivity].
Qed.

Lemma whence_cases f offset whence :
  (exists p, seek_target f offset whence p) \/ ~ recognized_whence whence.
Proof.
  destruct (Z.eq_dec whence SEEK_SET) as [-> | N0];
    [left; eexists; constructor |].
  destruct (Z.eq_dec whence SEEK_CUR) as [-> | N1];
    [left; eexists; constructor |].
  destruct (Z.eq_dec whence SEEK_END) as [-> | N2];
    [left; eexists; constructor |].
  right. unfold recognized_whence. tauto.
Qed.

(** C7. [seek offset whence] on a stream at position [p] with size [s] aims
    at [offset], [p + offset] or [s + offset] for whence start, current or
    end; it raises OSError when that position is negative and ValueError
    when the whence is none of the three; for every non-negative target,
    also beyond [s], it succeeds, returns the target, and [tell] right after
    returns exactly the target. *)
Theorem seek_contract f w offset whence :
  (forall p, seek_target f offset whence p -> 0 <= p ->
     seek offset whence (f, w) = (Ok p, (with_pos f p, w))
     /\ fst (tell (snd (seek offset whence (f, w)))) = Ok p)
  /\ (forall p, seek_target f offset whence p -> p < 0 ->
      fst (seek offset whence (f, w)) = Raise (OSError "Negative seek position"))
  /\ (~ recognized_whence whence ->
      fst (seek offset whence (f, w)) = Raise (ValueError "invalid whence")).
Proof.
  split; [| split].
  - intros p T Hp. rewrite (seek_to f w offset whence p T Hp). now split.
  - intros p T Hp. now rewrite (seek_negative f w offset whence p T Hp).
  - intros N. now rewrite (seek_bad_whence f w offset whence N).
Qed.

(** C10. A [seek] that raises, for a negative target or for an unrecognized
    whence, leaves the stream as it was: [tell] returns after it what it
    returned before it. *)
Theorem seek_failure_keeps_position f w offset whence e :
  fst (seek offset whence (f, w)) = Raise e ->
  snd (seek offset whence (f, w)) = (f, w)
  /\ fst (tell (snd (seek offset whence (f, w)))) = fst (tell (f, w)).
Proof.
  intros Hfail.
  assert (S : snd (seek offset whence (f, w)) = (f, w)).
  { destruct (whence_cases f offset whence) as [[p T] | N].
    - destruct (Z.lt_ge_cases p 0) as [Hneg | Hpos].
      + now rewrite (seek_negative f w offset whence p T Hneg).
      + rewrite (seek_to f w offset whence p T Hpos) in Hfail. discriminate.
    - now rewrite (seek_bad_whence f w offset whence N). }
  split; [exact S | now rewrite S].
Qed.

End SeekClaims.

Lemma seek_contract_witness :
  HTTPRangeFile.seek 9 HTTPRangeFile.SEEK_CUR
    (stream_at 2 None, quiet (range_server hello None))
  = (Ok 11, (stream_at 11 None, quiet (range_server hello None))).
Proof.
  destruct (seek_contract (stream_at 2 None) (quiet (range_server hello None))
              9 HTTPRangeFile.SEEK_CUR) as (C & _ & _).
  destruct (C 11 (from_current (stream_at 2 None) 9) ltac:(lia)) as [E _].
  exact E.
Defined.

Lemma seek_failure_keeps_position_witness :
  fst (HTTPRangeFile.tell
         (snd (HTTPRangeFile.seek (-9) HTTPRangeFile.SEEK_END
                 (stream_at 2 None, quiet (range_server hello None)))))
  = Ok 2.
Proof.
  destruct (seek_failure_keeps_position (stream_at 2 None)
              (quiet (range_server hello None)) (-9) HTTPRangeFile.SEEK_END
              (OSError "Negative seek position") eq_refl) as [_ E].
  exact E.
Defined.

(** ** The stream: invariants over sequences of calls *)

Section StreamInvariants.
  Import HTTPRangeFile.

  Implicit Types (f : t) (w : world).

Lemma init_position `{Platform} u w0 f w :
  init u w0 = (Ok f, w) -> pos f = 0 /\ net w = net w0.
Proof.
  unfold init, bind, send, raise_for_status, of_result, ret, raise; cbn.
  destruct (is_error_status _); [discriminate |].
  destruct (content_length _); [| discriminate].
  intros [= <- <-]. now split.
Qed.

(** After a [read] the stream is where it was or further on, and the peer
    is the same. *)
Lemma read_state f w n :
  exists k w', snd (read n (f, w)) = (with_pos f (pos f + k), w')
               /\ 0 <= k /\ net w' = net w.
Proof.
  assert (Same : with_pos f (pos f + 0) = f)
    by (destruct f; unfold with_pos; cbn; f_equal; lia).
  destruct (Z.eq_dec n 0) as [-> | Hn].
  { exists 0, w. now rewrite read_zero, Same. }
  destruct (Z.le_gt_cases (size f) (pos f)) as [Heof | Hlt].
  { exists 0, w. rewrite Same.
    destruct (Z.lt_total n 0) as [Hneg | [-> | Hpos]]; [| lia |].
    - now rewrite read_to_end_eof.
    - now rewrite read_bounded_eof. }
  destruct (Z.lt_total n 0) as [Hneg | [-> | Hpos]]; [| lia |].
  - rewrite (read_to_end_fetch f w n Hneg Hlt).
    destruct (is_error_status _); cbn.
    + eexists 0, _. rewrite Same. repeat split; lia.
    + eexists _, _. repeat split. apply len_nonneg.
  - rewrite (read_bounded_fetch f w n Hpos Hlt).
    destruct (is_error_status _); cbn.
    + eexists 0, _. rewrite Same. repeat split; lia.
    + eexists _, _. repeat split. apply len_nonneg.
Qed.

Lemma readinto_state f w b :
  exists k w', snd (readinto b (f, w)) = (with_pos f (pos f + k), w')
               /\ 0 <= k /\ net w' = net w.
Proof.
  assert (Same : with_pos f (pos f + 0) = f)
    by (destruct f; unfold with_pos; cbn; f_equal; lia).
  destruct (Z.le_gt_cases (size f) (pos f)) as [Heof | Hlt].
  { exists 0, w. now rewrite readinto_eof, Same. }
  rewrite (readinto_fetch f w b Hlt).
  destruct (is_error_status _); cbn.
  - eexists 0, _. rewrite Same. repeat split; lia.
  - eexists _, _. repeat split. apply len_nonneg.
Qed.

Lemma seekable_state f w :
  pos (fst (snd (seekable (f, w)))) = pos f
  /\ size (fst (snd (seekable (f, w)))) = size f
  /\ net (snd (snd (seekable (f, w)))) = net w.
Proof.
  unfold seekable, is_seekable, bind, self; cbn.
  destruct (is_seekable_cache f); [now cbn |].
  unfold is_seekable_body, bind, self, on_snd, log, modify, ret,
    set_is_seekable_cache; cbn.
  destruct (bool_decide (headers (head f) !! "Accept-Ranges" = Some "bytes"));
    cbn; [now idtac |].
  destruct (bool_decide (_ ∈ silent_values)); now cbn.
Qed.

Lemma perform_keeps c f w :
  net (snd (perform c (f, w))) = net w
  /\ size (fst (perform c (f, w))) = size f
  /\ (0 <= pos f -> 0 <= pos (fst (perform c (f, w)))).
Proof.
  destruct c as [n | b | offset whence | | |]; cbn [perform].
  - destruct (read_state f w n) as (k & w' & -> & Hk & Hnet). cbn.
    repeat split; [exact Hnet | lia].
  - destruct (readinto_state f w b) as (k & w' & -> & Hk & Hnet). cbn.
    repeat split; [exact Hnet | lia].
  - destruct (whence_cases f offset whence) as [[p T] | N].
    + destruct (Z.lt_ge_cases p 0) as [Hneg | Hpos].
      * now rewrite (seek_negative f w offset whence p T Hneg).
      * now rewrite (seek_to f w offset whence p T Hpos).
    + now rewrite (seek_bad_whence f w offset whence N).
  - now cbn.
  - destruct (seekable_state f w) as (Hp & Hs & Hn).
    repeat split; [exact Hn | exact Hs | now rewrite Hp].
  - now cbn.
Qed.

Lemma perform_all_keeps cs : forall f w,
  net (snd (perform_all cs (f, w))) = net w
  /\ size (fst (perform_all cs (f, w))) = size f
  /\ (0 <= pos f -> 0 <= pos (fst (perform_all cs (f, w)))).
Proof.
  induction cs as [| c cs IH]; intros f w; [now cbn |].
  unfold perform_all in *. cbn [fold_left].
  destruct (perform c (f, w)) as [f1 w1] eqn:E.
  destruct (perform_keeps c f w) as (Hn & Hs & Hp). rewrite E in *. cbn in *.
  destruct (IH f1 w1) as (Hn' & Hs' & Hp').
  repeat split; [congruence | congruence | auto].
Qed.

(** A successful [read] against a peer that honours ranges. *)
Lemma read_within_bounds f w n data s' :
  honours_ranges (net w) ->
  read n (f, w) = (Ok data, s') ->
  (0 <= n -> len data <= n) /\ len data <= Z.max 0 (size f - pos f).
Proof.
  intros Hon E.
  destruct (Z.eq_dec n 0) as [-> | Hn].
  { rewrite read_zero in E. injection E as <- _. unfold len; cbn; lia. }
  destruct (Z.le_gt_cases (size f) (pos f)) as [Heof | Hlt].
  { destruct (Z.lt_total n 0) as [Hneg | [-> | Hpos]]; [| lia |].
    - rewrite read_to_end_eof in E by assumption.
      injection E as <- _. unfold len; cbn; lia.
    - rewrite read_bounded_eof in E by assumption.
      injection E as <- _. unfold len; cbn; lia. }
  destruct (Z.lt_total n 0) as [Hneg | [-> | Hpos]]; [| lia |].
  - rewrite (read_to_end_fetch f w n Hneg Hlt) in E.
    destruct (is_error_status _); [discriminate |].
    injection E as <- _.
    pose proof (Hon (sent w) (url f) (pos f) (size f - 1)). len_lia.
  - rewrite (read_bounded_fetch f w n Hpos Hlt) in E.
    destruct (is_error_status _); [discriminate |].
    injection E as <- _.
    pose proof (Hon (sent w) (url f) (pos f)
                  (Z.min (pos f + n - 1) (size f - 1))). len_lia.
Qed.

Lemma readinto_within_bounds f w b k b' s' :
  honours_ranges (net w) ->
  readinto b (f, w) = (Ok (k, b'), s') ->
  k <= len b /\ k <= Z.max 0 (size f - pos f).
Proof.
  intros Hon E.
  destruct (Z.le_gt_cases (size f) (pos f)) as [Heof | Hlt].
  { rewrite readinto_eof in E by assumption. injection E as <- _ _. len_lia. }
  rewrite (readinto_fetch f w b Hlt) in E.
  destruct (is_error_status _); [discriminate |].
  injection E as <- _ _.
  pose proof (Hon (sent w) (url f) (pos f)
                (Z.min (pos f + len b - 1) (size f - 1))). len_lia.
Qed.

End StreamInvariants.

Lemma bridge_read_within_bounds self handle off sz w data w' :
  honours_ranges (net w) ->
  tempofs.read self handle off sz w = (Ok data, w') ->
  len data <= Z.max 0 sz.
Proof.
  intros Hon. unfold tempofs.read, bind, log, modify, of_result; cbn.
  destruct (tempofs.find self handle) as [f |]; [| discriminate].
  unfold webfile.read, bind, send, ret; cbn. intros [= <- _].
  pose proof (Hon (sent w) (webfile.url f) off (off + sz - 1)). len_lia.
Qed.

(** C9, as the code has it.  From its construction on and through every
    sequence of calls, whether they return or raise, the position of a
    stream is never negative; and against a peer that answers a ranged GET
    with no more bytes than the range spans, a [read n] that returns gives
    at most [n] bytes (when [n] bounds it) and at most the bytes between the
    position and the size, [readinto] at most the length of its buffer, and
    the bridge's [read] at most the [size] asked for. *)
Theorem position_and_read_bounds `{Platform} u w0 f w cs :
  HTTPRangeFile.init u w0 = (Ok f, w) ->
  let s := perform_all cs (f, w) in
  let p := HTTPRangeFile.pos (fst s) in
  let sz := HTTPRangeFile.size (fst s) in
  0 <= p
  /\ (honours_ranges (net w0) ->
      (forall n data s', HTTPRangeFile.read n s = (Ok data, s') ->
         (0 <= n -> len data <= n) /\ len data <= Z.max 0 (sz - p))
      /\ (forall b k b' s', HTTPRangeFile.readinto b s = (Ok (k, b'), s') ->
            k <= len b /\ k <= Z.max 0 (sz - p))
      /\ (forall self handle off size data w',
            tempofs.read self handle off size (snd s) = (Ok data, w') ->
            len data <= Z.max 0 size)).
Proof.
  intros Hinit s p sz.
  destruct (init_position u w0 f w Hinit) as [Hp0 Hnet0].
  destruct (perform_all_keeps cs f w) as (Hnet & _ & Hpos).
  fold s in Hnet, Hpos.
  split; [apply Hpos; lia |].
  intros Hon.
  assert (Hon' : honours_ranges (net (snd s))) by (rewrite Hnet, Hnet0; exact Hon).
  subst p sz. destruct s as [f1 w1]. cbn in *.
  split; [| split].
  - intros n data s'. now apply read_within_bounds.
  - intros b k b' s'. now apply readinto_within_bounds.
  - intros self handle off size data w'. now apply bridge_read_within_bounds.
Qed.

Lemma range_server_honours_ranges body accept_ranges :
  honours_ranges (range_server body accept_ranges).
Proof.
  intros history u first last. unfold range_server.
  destruct (_ && _); unfold len; cbn [content length]; [| lia].
  rewrite length_take. lia.
Qed.

Lemma position_and_read_bounds_witness :
  let s := perform_all [Seek (-3) 2; Read 9; Seek (-7) 1]
             (stream_at 0 (Some "bytes"),
              sending (quiet (range_server hello (Some "bytes")))
                      (HEAD "http://h/f")) in
  0 <= HTTPRangeFile.pos (fst s)
  /\ forall n data s', HTTPRangeFile.read n s = (Ok data, s') ->
       (0 <= n -> len data <= n)
       /\ len data <= Z.max 0 (HTTPRangeFile.size (fst s)
                               - HTTPRangeFile.pos (fst s)).
Proof.
  destruct (@position_and_read_bounds linux "http://h/f"
              (quiet (range_server hello (Some "bytes")))
              (stream_at 0 (Some "bytes"))
              (sending (quiet (range_server hello (Some "bytes")))
                       (HEAD "http://h/f"))
              [Seek (-3) 2; Read 9; Seek (-7) 1] eq_refl) as [P B].
  split; [exact P |].
  exact (proj1 (B (range_server_honours_ranges hello (Some "bytes")))).
Defined.

(** C9 as stated fails: a peer without range support answers [read 2] at
    position 0 of a 5-byte resource with all 5 bytes, and [read] returns
    them. *)
Lemma read_exceeds_request :
  ~ (forall data s',
       HTTPRangeFile.read 2 (stream_at 0 None, quiet (whole_body_server hello))
       = (Ok data, s') ->
       len data <= Z.min 2 (HTTPRangeFile.size (stream_at 0 None)
                            - HTTPRangeFile.pos (stream_at 0 None))).
Proof.
  intros C.
  specialize (C hello
                (stream_at 5 None,
                 sending (quiet (whole_body_server hello)) (GET "http://h/f" 0 1))
                eq_refl).
  vm_compute in C. now apply C.
Qed.

(** ** The bridge: resolution *)

Section Bridge.
  Context `{Platform}.

  Implicit Types (self : tempofs.t) (w : world).

Lemma find_in_unknown fs ino :
  (forall f, f ∈ fs -> webfile.inode f <> ino) ->
  tempofs.find_in fs ino = Raise IndexError.
Proof.
  induction fs as [| f fs IH]; intros U; [reflexivity |].
  cbn. destruct (Z.eqb_spec (webfile.inode f) ino) as [E | _].
  - exfalso. apply (U f); [left | exact E].
  - apply IH. intros g Hg. apply U. now right.
Qed.

Lemma find_in_found fs ino f :
  tempofs.find_in fs ino = Ok f -> f ∈ fs /\ webfile.inode f = ino.
Proof.
  induction fs as [| g fs IH]; [discriminate |].
  cbn. destruct (Z.eqb_spec (webfile.inode g) ino) as [E | _].
  - intros [= <-]. split; [left | exact E].
  - intros E. destruct (IH E). split; [now right | assumption].
Qed.

Lemma getattr_unknown self ino w :
  ino <> ROOT_INODE -> unknown_inode self ino ->
  tempofs.getattr self ino w = (Raise (FUSEError ENOENT), w).
Proof.
  intros Hroot U. unfold tempofs.getattr.
  destruct (Z.eqb_spec ino ROOT_INODE); [contradiction |].
  unfold unknown_inode in U.
  induction (tempofs.files self) as [| f fs IH]; [reflexivity |].
  cbn. destruct (Z.eqb_spec (webfile.inode f) ino) as [E | _].
  - exfalso. apply (U f); [left | exact E].
  - apply IH. intros g Hg. apply U. now right.
Qed.

Lemma lookup_non_root self parent nm w :
  parent <> ROOT_INODE ->
  tempofs.lookup self parent nm w = (Raise (FUSEError ENOENT), w).
Proof.
  intros Hroot. unfold tempofs.lookup.
  now destruct (Z.eqb_spec parent ROOT_INODE).
Qed.

Lemma lookup_unknown_name self parent nm w :
  unknown_name self nm ->
  tempofs.lookup self parent nm w = (Raise (FUSEError ENOENT), w).
Proof.
  intros U. unfold tempofs.lookup.
  destruct (Z.eqb_spec parent ROOT_INODE); [| reflexivity]. cbn.
  unfold unknown_name in U.
  induction (tempofs.files self) as [| f fs IH]; [reflexivity |].
  cbn. case_bool_decide as E.
  - exfalso. apply (U f); [left | exact E].
  - apply IH. intros g Hg. apply U. now right.
Qed.

Lemma open_unknown self ino flags w :
  tempofs.write_intent flags = false -> unknown_inode self ino ->
  tempofs.open self ino flags w = (Raise (FUSEError ENOENT), w).
Proof.
  intros Hro U. unfold tempofs.open. rewrite Hro.
  unfold try_except, bind, of_result, tempofs.find.
  now rewrite (find_in_unknown _ _ U).
Qed.

Lemma read_unknown self handle off sz w :
  unknown_inode self handle ->
  tempofs.read self handle off sz w
  = (Raise IndexError, logging w DEBUG (ReadCall handle off sz)).
Proof.
  intros U. unfold tempofs.read, bind, log, modify, of_result, tempofs.find.
  cbn. now rewrite (find_in_unknown _ _ U).
Qed.

Lemma write_intent_true flags :
  has_write_intent flags -> tempofs.write_intent flags = true.
Proof.
  unfold has_write_intent, tempofs.write_intent, truthy.
  intros [N | [N | [N | N]]];
    repeat (sign_case; cbn; try reflexivity; try contradiction).
Qed.

(** C4. An [open] whose flags hold a write-intent bit (append, truncate,
    read-write or write-only) raises FUSEError(EACCES) for every identifier,
    after one warning; no request is sent, so nothing is probed. *)
Theorem open_rejects_write_intent self ino flags w :
  has_write_intent flags ->
  tempofs.open self ino flags w
  = (Raise (FUSEError EACCES), logging w WARNING (OnlyReadSupported flags))
  /\ sent (snd (tempofs.open self ino flags w)) = sent w.
Proof.
  intros I. unfold tempofs.open. rewrite (write_intent_true flags I).
  now split.
Qed.

Lemma bridge_read_eval self handle off sz w f :
  tempofs.find self handle = Ok f ->
  tempofs.read self handle off sz w
  = (Ok (content (net w (sent w) (GET (webfile.url f) off (off + sz - 1)))),
     sending (logging w DEBUG (ReadCall handle off sz))
             (GET (webfile.url f) off (off + sz - 1))).
Proof.
  intros F. unfold tempofs.read, bind, log, modify, of_result. cbn.
  now rewrite F.
Qed.

(** C8. For a handle that resolves to a file, every offset and every size,
    the bridge's [read] sends exactly one request, the GET of the file's url
    with header Range: bytes=offset-(offset+size-1), and returns the content
    of the response to it as it is. *)
Theorem bridge_read_contract self handle off sz w f :
  tempofs.find self handle = Ok f ->
  let rq := GET (webfile.url f) off (off + sz - 1) in
  tempofs.read self handle off sz w
  = (Ok (content (net w (sent w) rq)),
     sending (logging w DEBUG (ReadCall handle off sz)) rq)
  /\ sent (snd (tempofs.read self handle off sz w)) = sent w ++ [rq]
  /\ request_headers rq
     = [("Range", "bytes=" +:+ pretty off +:+ "-" +:+ pretty (off + sz - 1))].
Proof.
  intros F rq. rewrite (bridge_read_eval self handle off sz w f F).
  now repeat split.
Qed.

End Bridge.

Lemma open_rejects_write_intent_witness :
  @tempofs.open linux two_files 2 (@O_WRONLY linux)
    (quiet (range_server hello None))
  = (Raise (FUSEError EACCES),
     logging (quiet (range_server hello None)) WARNING (OnlyReadSupported 1)).
Proof.
  apply (@open_rejects_write_intent linux two_files 2 (@O_WRONLY linux)).
  unfold has_write_intent. do 3 right. discriminate.
Defined.

Lemma bridge_read_contract_witness :
  observe (tempofs.read two_files 3 1 3 (quiet (range_server hello None)))
  = (Ok [x65; x6c; x6c], [GET "http://h/b" 1 3], [(DEBUG, ReadCall 3 1 3)], []).
Proof.
  destruct (bridge_read_contract two_files 3 1 3
              (quiet (range_server hello None))
              (webfile.mk 3 "b" "http://h/b") eq_refl) as [E _].
  now rewrite E.
Defined.

(** ** Error statuses and unknown handles *)

(** On the stream, an error status of the ranged GET is raised to the
    caller of [read], and the position stays where it was. *)
Lemma stream_read_raises_error_status f w n :
  n <> 0 -> HTTPRangeFile.pos f < HTTPRangeFile.size f ->
  let last := if n <? 0 then HTTPRangeFile.size f - 1
              else Z.min (HTTPRangeFile.pos f + n - 1) (HTTPRangeFile.size f - 1) in
  let rq := GET (HTTPRangeFile.url f) (HTTPRangeFile.pos f) last in
  is_error_status (status_code (net w (sent w) rq)) = true ->
  HTTPRangeFile.read n (f, w)
  = (Raise (HTTPError (status_code (net w (sent w) rq))), (f, sending w rq)).
Proof.
  intros Hn Hlt last rq Herr. subst rq last.
  destruct (Z.ltb_spec n 0) as [Hneg | Hpos].
  - rewrite (read_to_end_fetch f w n Hneg Hlt). now rewrite Herr.
  - rewrite (read_bounded_fetch f w n ltac:(lia) Hlt). now rewrite Herr.
Qed.

Lemma stream_readinto_raises_error_status f w b :
  HTTPRangeFile.pos f < HTTPRangeFile.size f ->
  let rq := GET (HTTPRangeFile.url f) (HTTPRangeFile.pos f)
              (Z.min (HTTPRangeFile.pos f + len b - 1) (HTTPRangeFile.size f - 1)) in
  is_error_status (status_code (net w (sent w) rq)) = true ->
  HTTPRangeFile.readinto b (f, w)
  = (Raise (HTTPError (status_code (net w (sent w) rq))), (f, sending w rq)).
Proof.
  intros Hlt rq Herr. rewrite (readinto_fetch f w b Hlt). fold rq.
  now rewrite Herr.
Qed.

(** The bridge never looks at the status of the response it reads from. *)
Lemma bridge_read_ignores_status self handle off sz w f :
  tempofs.find self handle = Ok f ->
  fst (tempofs.read self handle off sz w)
  = Ok (content (net w (sent w) (GET (webfile.url f) off (off + sz - 1)))).
Proof.
  intros F.
  now rewrite (bridge_read_eval self handle off sz w f F).
Qed.

(** C2, at the failing input.  The file of handle 2 is served by a peer
    that answers every GET with status 404 and an error page: the bridge's
    [read] returns the error page as the file's bytes, where the stream's
    [read] raises. *)
Theorem bridge_read_returns_error_body :
  is_error_status 404 = true
  /\ observe (tempofs.read two_files 2 0 10 (quiet (not_found_server hello)))
     = (Ok hello, [GET "http://h/a" 0 9], [(DEBUG, ReadCall 2 0 10)], [])
  /\ fst (HTTPRangeFile.read 10
            (HTTPRangeFile.mk "http://h/a" (Response 200 ∅ []) 5 0 None,
             quiet (not_found_server hello)))
     = Raise (HTTPError 404).
Proof. repeat split. Qed.

(** C3, at the failing input.  Handle 7 names no file of the registry and
    is not the root: [getattr] and a read-only [open] raise
    FUSEError(ENOENT) on it, as [lookup] does under a parent that is not the
    root or for a name that is not configured; [read] raises IndexError. *)
Theorem bridge_read_unknown_handle_raises_IndexError :
  unknown_inode two_files 7
  /\ fst (tempofs.read two_files 7 0 10 (quiet (range_server hello None)))
     = Raise IndexError
  /\ fst (@tempofs.open linux two_files 7 0 (quiet (range_server hello None)))
     = Raise (FUSEError ENOENT)
  /\ fst (@tempofs.getattr linux two_files 7 (quiet (range_server hello None)))
     = Raise (FUSEError ENOENT)
  /\ fst (@tempofs.lookup linux two_files 7 "a" (quiet (range_server hello None)))
     = Raise (FUSEError ENOENT)
  /\ fst (@tempofs.lookup linux two_files 1 "c" (quiet (range_server hello None)))
     = Raise (FUSEError ENOENT).
Proof.
  split; [| repeat split].
  intros f Hf. unfold two_files in Hf. cbn in Hf.
  repeat (apply elem_of_cons in Hf as [-> | Hf]; [cbn; lia |]).
  now apply elem_of_nil in Hf.
Qed.

(** ** Seekability *)

Section Seekability.
  Context `{Platform}.

Lemma init_shape u w0 f w :
  HTTPRangeFile.init u w0 = (Ok f, w) ->
  HTTPRangeFile.url f = u
  /\ HTTPRangeFile.head f = net w0 (sent w0) (HEAD u)
  /\ HTTPRangeFile.is_seekable_cache f = None
  /\ w = sending w0 (HEAD u).
Proof.
  unfold HTTPRangeFile.init, bind, send, raise_for_status, of_result, ret,
    raise; cbn.
  destruct (is_error_status _); [discriminate |].
  destruct (HTTPRangeFile.content_length _); [| discriminate].
  intros [= <- <-]. now repeat split.
Qed.

(** The first access to [is_seekable]: the value, the cache slot filled,
    and the records written, by the Accept-Ranges header of the probe. *)
Lemma seekable_first_access f w :
  HTTPRangeFile.is_seekable_cache f = None ->
  let v := headers (HTTPRangeFile.head f) !! "Accept-Ranges" in
  let b := bool_decide (v = Some "bytes") in
  HTTPRangeFile.seekable (f, w)
  = (Ok b,
     (HTTPRangeFile.with_cache f b,
      if b then w
      else if bool_decide (default "none" v ∈ HTTPRangeFile.silent_values)
           then logging w WARNING (NotSeekable (HTTPRangeFile.url f))
           else logging (logging w WARNING (UnknownAcceptRanges (default "none" v)))
                        WARNING (NotSeekable (HTTPRangeFile.url f)))).
Proof.
  intros Hc v b. subst b v.
  unfold HTTPRangeFile.seekable, HTTPRangeFile.is_seekable, bind,
    HTTPRangeFile.self; cbn. rewrite Hc.
  unfold HTTPRangeFile.is_seekable_body, bind, HTTPRangeFile.self, on_snd,
    log, modify, ret, HTTPRangeFile.set_is_seekable_cache; cbn.
  destruct (bool_decide (_ = Some "bytes")); cbn; [now destruct w |].
  now destruct (bool_decide (_ ∈ HTTPRangeFile.silent_values)).
Qed.

(** Later accesses give the cached value and write nothing. *)
Lemma seekable_cached f w b :
  HTTPRangeFile.is_seekable_cache f = Some b ->
  HTTPRangeFile.seekable (f, w) = (Ok b, (f, w)).
Proof.
  intros Hc. unfold HTTPRangeFile.seekable, HTTPRangeFile.is_seekable, bind,
    HTTPRangeFile.self; cbn. now rewrite Hc.
Qed.

Lemma getfileinfo_eval g w :
  let v := headers (net w (sent w) (HEAD (webfile.url g))) !! "Accept-Ranges" in
  let w1 := sending w (HEAD (webfile.url g)) in
  webfile.getfileinfo g w
  = match v with
    | Some s =>
        if bool_decide (s = "bytes")
        then (Ok (mkFileInfo (webfile.inode g) true false), w1)
        else if bool_decide (s ∈ webfile.silent_values)
             then (Ok (mkFileInfo (webfile.inode g) true true),
                   logging w1 WARNING (Nonseekable (webfile.name g)))
             else (Ok (mkFileInfo (webfile.inode g) true true),
                   logging (logging w1 WARNING (UnknownAcceptRanges s))
                           WARNING (Nonseekable (webfile.name g)))
    | None =>
        (Ok (mkFileInfo (webfile.inode g) true true),
         logging (logging w1 WARNING (UnknownAcceptRanges "True"))
                 WARNING (Nonseekable (webfile.name g)))
    end.
Proof.
  intros v w1. subst v w1.
  unfold webfile.getfileinfo, bind, send, log, modify, ret; cbn.
  destruct (headers _ !! "Accept-Ranges") as [s |]; cbn; [| reflexivity].
  repeat case_bool_decide; cbn; try reflexivity; try congruence.
  all: try (exfalso; congruence).
  all: now destruct (bool_decide (s ∈ webfile.silent_values)).
Qed.

Lemma open_read_only self ino flags w g :
  tempofs.write_intent flags = false ->
  tempofs.find self ino = Ok g ->
  tempofs.open self ino flags w = webfile.getfileinfo g w.
Proof.
  intros Hro F. unfold tempofs.open. rewrite Hro.
  unfold try_except, bind, of_result. rewrite F.
  destruct (webfile.getfileinfo g w) as [[i | e] w'] eqn:E; [reflexivity |].
  exfalso. revert E. rewrite getfileinfo_eval.
  destruct (headers _ !! "Accept-Ranges") as [s |]; [| discriminate].
  repeat (destruct (bool_decide _)); discriminate.
Qed.

End Seekability.

Lemma bytes_not_silent : "bytes" ∉ HTTPRangeFile.silent_values.
Proof.
  intros Hin. unfold HTTPRangeFile.silent_values in Hin.
  repeat (apply elem_of_cons in Hin as [E | Hin]; [discriminate E |]).
  now apply elem_of_nil in Hin.
Qed.

Lemma none_is_silent : "none" ∈ HTTPRangeFile.silent_values.
Proof. left. Qed.

(** C6, as the code has it.  The stream's [seekable] is true exactly when
    the Accept-Ranges header of the probe is "bytes", and the bridge's
    [open] reports nonseekable exactly when it is not "bytes", absence
    included.  Every outcome other than "bytes" is logged as a warning (the
    stream: the file at its url is not seekable; the bridge: the file of
    that name is nonseekable).  For none/false/False/0/no/No that is the
    only record; for any other value an "Unknown Accept-Ranges value"
    warning precedes it; for an absent header the stream writes the one
    record and the bridge writes both, with the value True. *)
Theorem seekability_contract `{Platform} :
  (forall u w0 f w,
     HTTPRangeFile.init u w0 = (Ok f, w) ->
     let v := headers (net w0 (sent w0) (HEAD u)) !! "Accept-Ranges" in
     let r := HTTPRangeFile.seekable (f, w) in
     let unseekable := (WARNING, NotSeekable u) in
     fst r = Ok (bool_decide (v = Some "bytes"))
     /\ (v = Some "bytes" -> logged (snd (snd r)) = logged w)
     /\ (v = None \/ (exists s, v = Some s /\ s ∈ HTTPRangeFile.silent_values) ->
         logged (snd (snd r)) = logged w ++ [unseekable])
     /\ (forall s, v = Some s -> s <> "bytes" ->
                   s ∉ HTTPRangeFile.silent_values ->
         logged (snd (snd r))
         = logged w ++ [(WARNING, UnknownAcceptRanges s); unseekable]))
  /\ (forall self ino flags w g,
        tempofs.write_intent flags = false ->
        tempofs.find self ino = Ok g ->
        let v := headers (net w (sent w) (HEAD (webfile.url g))) !! "Accept-Ranges" in
        let r := tempofs.open self ino flags w in
        let unseekable := (WARNING, Nonseekable (webfile.name g)) in
        fst r = Ok (mkFileInfo ino true (negb (bool_decide (v = Some "bytes"))))
        /\ (v = Some "bytes" -> logged (snd r) = logged w)
        /\ (forall s, v = Some s -> s ∈ webfile.silent_values ->
            logged (snd r) = logged w ++ [unseekable])
        /\ (v = None ->
            logged (snd r)
            = logged w ++ [(WARNING, UnknownAcceptRanges "True"); unseekable])
        /\ (forall s, v = Some s -> s <> "bytes" -> s ∉ webfile.silent_values ->
            logged (snd r)
            = logged w ++ [(WARNING, UnknownAcceptRanges s); unseekable])).
Proof.
  split.
  - intros u w0 f w Hinit v r unseekable.
    destruct (init_shape u w0 f w Hinit) as (Hu & Hh & Hc & Hw).
    pose proof (seekable_first_access f w Hc) as E. cbn zeta in E.
    rewrite Hh, Hu in E. fold v in E. subst r unseekable. rewrite E. cbn.
    split; [reflexivity |]. split; [| split].
    + intros Hv. now rewrite bool_decide_eq_true_2.
    + intros [Hv | (s & Hv & Hs)].
      * rewrite Hv. cbn. reflexivity.
      * rewrite Hv. cbn.
        rewrite bool_decide_eq_false_2
          by (intros [= ->]; now apply bytes_not_silent).
        now rewrite bool_decide_eq_true_2.
    + intros s Hv Hnb Hns. rewrite Hv. cbn.
      rewrite bool_decide_eq_false_2 by congruence.
      rewrite bool_decide_eq_false_2 by assumption.
      cbn. now rewrite <- app_assoc.
  - intros self ino flags w g Hro F v r unseekable. subst r unseekable.
    rewrite (open_read_only self ino flags w g Hro F), getfileinfo_eval.
    fold v.
    assert (Hino : webfile.inode g = ino)
      by (now destruct (find_in_found _ _ _ F)).
    destruct v as [s |] eqn:Hv.
    + destruct (decide (s = "bytes")) as [-> | Hnb].
      * rewrite !bool_decide_eq_true_2 by reflexivity. cbn. rewrite Hino.
        repeat split; intros; simplify_eq; try reflexivity.
        exfalso. now apply bytes_not_silent.
      * rewrite (bool_decide_eq_false_2 (s = "bytes")) by assumption.
        rewrite (bool_decide_eq_false_2 (Some s = Some "bytes")) by congruence.
        case_bool_decide as Hs; cbn; rewrite Hino;
          repeat split; intros; simplify_eq; try reflexivity;
          try contradiction; now rewrite <- app_assoc.
    + cbn. rewrite Hino.
      repeat split; intros; simplify_eq; try reflexivity.
      now rewrite <- app_assoc.
Qed.

Lemma seekability_contract_witness :
  fst (@tempofs.open linux two_files 2 0
         (quiet (range_server hello (Some "bytes"))))
  = Ok (mkFileInfo 2 true false)
  /\ logged (snd (@tempofs.open linux two_files 2 0
                    (quiet (range_server hello (Some "none")))))
     = [(WARNING, Nonseekable "a")].
Proof.
  pose proof (proj2 (@seekability_contract linux)) as C.
  split.
  - exact (proj1 (C two_files 2 0 (quiet (range_server hello (Some "bytes")))
                   (webfile.mk 2 "a" "http://h/a") eq_refl eq_refl)).
  - destruct (C two_files 2 0 (quiet (range_server hello (Some "none")))
                (webfile.mk 2 "a" "http://h/a") eq_refl eq_refl)
      as (_ & _ & S & _).
    apply (S "none"); [reflexivity | left].
Defined.

(** C6 as stated fails: "none" is one of the listed values, and the stream
    writes a warning for it. *)
Lemma listed_value_is_not_silent :
  ~ (forall v, v ∈ HTTPRangeFile.silent_values ->
       logged (snd (snd (HTTPRangeFile.seekable
                           (stream_at 0 (Some v),
                            quiet (range_server hello (Some v))))))
       = logged (quiet (range_server hello (Some v)))).
Proof.
  intros C. specialize (C "none").
  specialize (C none_is_silent). vm_compute in C. discriminate C.
Qed.

(** ** Directory listing *)

Section Listing.
  Context `{Platform}.

  Implicit Types (self : tempofs.t) (w : world).

Lemma getattr_sends f w :
  snd (webfile.getattr f w) = sending w (HEAD (webfile.url f)).
Proof.
  unfold webfile.getattr, bind, send, try_except, of_result, ret; cbn.
  destruct (headers _ !! "Last-Modified") as [d |]; cbn.
  - destruct (timestamp_ns d) as [ts | e]; cbn.
    + destruct (headers _ !! "Content-Length") as [c |]; cbn;
        [now destruct (py_int c) | reflexivity].
    + destruct (is_KeyError e); cbn; [| reflexivity].
      destruct (headers _ !! "Content-Length") as [c |]; cbn;
        [now destruct (py_int c) | reflexivity].
  - destruct (headers _ !! "Content-Length") as [c |]; cbn;
      [now destruct (py_int c) | reflexivity].
Qed.

Lemma py_index_in_range {A} (l : list A) i x :
  0 <= i -> l !! Z.to_nat i = Some x -> py_index l i = Ok x.
Proof.
  intros Hi Hx. unfold py_index.
  apply lookup_lt_Some in Hx as Hlt.
  destruct (Z.ltb_spec i 0); [lia |].
  destruct (Z.ltb_spec i 0); [lia |].
  destruct (Z.leb_spec (len l) i); [unfold len in *; lia |].
  cbn. now rewrite Hx.
Qed.

Lemma py_index_beyond {A} (l : list A) i :
  len l <= i -> py_index l i = Raise IndexError.
Proof.
  intros Hi. unfold py_index. pose proof (len_nonneg l).
  destruct (Z.ltb_spec i 0); [lia |].
  destruct (Z.ltb_spec i 0); [lia |].
  now destruct (Z.leb_spec (len l) i); [| lia].
Qed.

Lemma encode_ascii_ok s : is_ascii s -> encode_ascii s = Ok (ascii_bytes s).
Proof. unfold is_ascii, encode_ascii, ascii_bytes. now intros ->. Qed.

Lemma root_is_root : negb (ROOT_INODE =? ROOT_INODE) = false.
Proof. now rewrite Z.eqb_refl. Qed.

Lemma readdir_entry self w start f attr :
  0 <= start -> tempofs.files self !! Z.to_nat start = Some f ->
  is_ascii (webfile.name f) ->
  fst (webfile.getattr f w) = Ok attr ->
  tempofs.readdir self ROOT_INODE start w
  = (Ok tt,
     replying (sending w (HEAD (webfile.url f)))
              (mkDirent (ascii_bytes (webfile.name f)) attr (start + 1))).
Proof.
  intros Hs Hf Ha Hattr. unfold tempofs.readdir. rewrite root_is_root.
  unfold try_except, bind, of_result.
  rewrite (py_index_in_range _ _ _ Hs Hf), (encode_ascii_ok _ Ha).
  pose proof (getattr_sends f w) as Hw.
  destruct (webfile.getattr f w) as [r w1]. cbn in Hattr, Hw. subst r w1.
  reflexivity.
Qed.

Lemma readdir_probe_fails self w start f e :
  0 <= start -> tempofs.files self !! Z.to_nat start = Some f ->
  is_ascii (webfile.name f) ->
  fst (webfile.getattr f w) = Raise e ->
  tempofs.readdir self ROOT_INODE start w
  = (Raise (if is_IndexError e then FUSEError ENOENT else e),
     sending w (HEAD (webfile.url f))).
Proof.
  intros Hs Hf Ha Hattr. unfold tempofs.readdir. rewrite root_is_root.
  unfold try_except, bind, of_result.
  rewrite (py_index_in_range _ _ _ Hs Hf), (encode_ascii_ok _ Ha).
  pose proof (getattr_sends f w) as Hw.
  destruct (webfile.getattr f w) as [r w1]. cbn in Hattr, Hw. subst r w1.
  now destruct (is_IndexError e).
Qed.

Lemma readdir_beyond self w start :
  len (tempofs.files self) <= start ->
  tempofs.readdir self ROOT_INODE start w = (Raise (FUSEError ENOENT), w).
Proof.
  intros Hs. unfold tempofs.readdir. rewrite root_is_root.
  unfold try_except, bind, of_result.
  now rewrite (py_index_beyond _ _ Hs).
Qed.

Lemma list_root_suffix self w0 suf : forall pre w fuel,
  tempofs.files self = pre ++ suf ->
  (forall f, f ∈ tempofs.files self -> is_ascii (webfile.name f)) ->
  probes_succeed self w0 -> net w = net w0 ->
  (length suf < fuel)%nat ->
  exists w',
    list_root fuel self (len pre) w = Some (len (tempofs.files self), w')
    /\ map d_name (replied w') = map d_name (replied w) ++ names_of suf.
Proof.
  induction suf as [| f rest IH]; intros pre w fuel Hfs Hascii Hprobe Hnet Hfuel.
  - destruct fuel as [| k]; [cbn in Hfuel; lia |].
    rewrite app_nil_r in Hfs. exists w. cbn [list_root].
    rewrite readdir_beyond by (rewrite Hfs; lia).
    rewrite Hfs. split; [reflexivity |]. cbn. now rewrite app_nil_r.
  - destruct fuel as [| k]; [cbn in Hfuel; lia |].
    assert (Hin : f ∈ tempofs.files self)
      by (rewrite Hfs; apply elem_of_app; right; left).
    assert (Hat : tempofs.files self !! Z.to_nat (len pre) = Some f).
    { unfold len. rewrite Nat2Z.id, Hfs. now apply list_lookup_middle. }
    destruct (Hprobe f w Hin Hnet) as [attr Hattr].
    cbn [list_root].
    rewrite (readdir_entry self w (len pre) f attr (len_nonneg pre) Hat
               (Hascii f Hin) Hattr).
    cbn [replied replying sending]. rewrite last_snoc. cbn [d_next].
    destruct (IH (pre ++ [f])
                (replying (sending w (HEAD (webfile.url f)))
                   (mkDirent (ascii_bytes (webfile.name f)) attr (len pre + 1)))
                k) as (w' & Hrun & Hnames).
    + now rewrite <- app_assoc.
    + exact Hascii.
    + exact Hprobe.
    + exact Hnet.
    + cbn in Hfuel. lia.
    + exists w'. rewrite len_app in Hrun. change (len [f]) with 1 in Hrun.
      split; [exact Hrun |].
      rewrite Hnames. cbn [replied replying sending].
      rewrite map_app. cbn. now rewrite <- app_assoc.
Qed.

End Listing.

(** C5, as the code has it.  On the root handle, for a registry of [count]
    entries: at a start index in [0, count) whose entry has an ASCII name
    and whose attribute probe succeeds, [readdir] replies exactly one entry,
    the one at that index in configuration order, with its name, the
    attributes just computed from a new probe, and the resume index
    [start + 1]; at a start index of [count] or more it raises
    FUSEError(ENOENT) and replies nothing; so, when every name is ASCII and
    every probe succeeds, a caller that starts at 0 and resumes at the index
    replied gets every configured name once, in configuration order, and
    is stopped by ENOENT at index [count]. *)
Theorem readdir_contract `{Platform} (self : tempofs.t) (w : world) (start : Z) :
  let count := len (tempofs.files self) in
  (0 <= start < count ->
   exists f, tempofs.files self !! Z.to_nat start = Some f
     /\ (is_ascii (webfile.name f) ->
         forall attr, fst (webfile.getattr f w) = Ok attr ->
           tempofs.readdir self ROOT_INODE start w
           = (Ok tt,
              replying (sending w (HEAD (webfile.url f)))
                (mkDirent (ascii_bytes (webfile.name f)) attr (start + 1)))))
  /\ (count <= start ->
      tempofs.readdir self ROOT_INODE start w = (Raise (FUSEError ENOENT), w))
  /\ ((forall f, f ∈ tempofs.files self -> is_ascii (webfile.name f)) ->
      probes_succeed self w ->
      forall fuel, (length (tempofs.files self) < fuel)%nat ->
      exists w',
        list_root fuel self 0 w = Some (count, w')
        /\ map d_name (replied w')
           = map d_name (replied w) ++ names_of (tempofs.files self)).
Proof.
  intros count. subst count. split; [| split].
  - intros [Hlo Hhi].
    destruct (lookup_lt_is_Some_2 (tempofs.files self) (Z.to_nat start))
      as [f Hf]; [unfold len in Hhi; lia |].
    exists f. split; [exact Hf |].
    intros Ha attr Hattr. now apply readdir_entry.
  - apply readdir_beyond.
  - intros Hascii Hprobe fuel Hfuel.
    exact (list_root_suffix self w (tempofs.files self) [] w fuel
             eq_refl Hascii Hprobe eq_refl Hfuel).
Qed.

Lemma example_probes_succeed :
  @probes_succeed linux two_files (quiet (range_server hello None)).
Proof.
  intros f w' _ Hnet.
  unfold webfile.getattr, bind, send, try_except, of_result, ret. cbn.
  rewrite Hnet. eexists. vm_compute. reflexivity.
Qed.

Lemma example_names_ascii f :
  f ∈ tempofs.files two_files -> is_ascii (webfile.name f).
Proof.
  intros Hf. unfold two_files in Hf. cbn in Hf.
  repeat (apply elem_of_cons in Hf as [-> | Hf]; [reflexivity |]).
  now apply elem_of_nil in Hf.
Qed.

Lemma readdir_contract_witness :
  observe (@tempofs.readdir linux two_files (@ROOT_INODE linux) 1
             (quiet (range_server hello None)))
  = (Ok tt, [HEAD "http://h/b"], [],
     [mkDirent [x62] (mkEntry 3 0x8124 5 0 0 0 0 0) 2])
  /\ exists w', @list_root linux 3 two_files 0 (quiet (range_server hello None))
                = Some (2, w')
                /\ map d_name (replied w') = [[x61]; [x62]].
Proof.
  destruct (@readdir_contract linux two_files
              (quiet (range_server hello None)) 1) as (C & _ & _).
  destruct (@readdir_contract linux two_files
              (quiet (range_server hello None)) 0) as (_ & _ & L).
  split.
  - destruct (C ltac:(unfold len; cbn; lia)) as (f & Hf & E).
    injection Hf as <-.
    now rewrite (E eq_refl (mkEntry 3 0x8124 5 0 0 0 0 0) eq_refl).
  - exact (L example_names_ascii example_probes_succeed 3%nat
             ltac:(cbn; lia)).
Defined.

(** C5 as stated fails: the only name of the registry is not ASCII, index 0
    is in range, and [readdir] raises UnicodeEncodeError without a reply. *)
Lemma non_ascii_name_is_not_listed :
  ~ (0 <= 0 < len (tempofs.files accented) ->
     exists d, replied (snd (@tempofs.readdir linux accented 1 0
                               (quiet (range_server hello None)))) = [d]).
Proof.
  intros C. destruct C as [d Hd]; [unfold len; cbn; lia |].
  vm_compute in Hd. discriminate Hd.
Qed.

(** * Further properties of the stream *)

Section StreamOutcomes.
  Import HTTPRangeFile.

  Implicit Types (f : t) (w : world).

Lemma with_pos_same f : with_pos f (pos f) = f.
Proof. now destruct f. Qed.

Lemma sending_none w :
  World (net w) (sent w ++ []) (logged w) (replied w) = w.
Proof. destruct w. cbn. now rewrite app_nil_r. Qed.

(** The state a [read] leaves: the position moved forward by the bytes
    received, and at most one request more, a GET of the stream's url that
    is only sent before the end of the resource. *)
Lemma read_outcome f w n :
  exists k rqs,
    snd (read n (f, w))
    = (with_pos f (pos f + k),
       World (net w) (sent w ++ rqs) (logged w) (replied w))
    /\ 0 <= k
    /\ (rqs = []
        \/ (pos f < size f /\ n <> 0 /\ exists a b, rqs = [GET (url f) a b])).
Proof.
  assert (Stay : (f, w) = (with_pos f (pos f + 0),
                           World (net w) (sent w ++ []) (logged w) (replied w)))
    by (now rewrite Z.add_0_r, with_pos_same, sending_none).
  assert (Sent : forall rq, (f, sending w rq)
                            = (with_pos f (pos f + 0),
                               World (net w) (sent w ++ [rq]) (logged w) (replied w)))
    by (intros rq; now rewrite Z.add_0_r, with_pos_same).
  destruct (Z.eq_dec n 0) as [-> | Hn].
  { exists 0, []. rewrite read_zero. cbn [snd]. split; [exact Stay | split; [lia | now left]]. }
  destruct (Z.le_gt_cases (size f) (pos f)) as [Heof | Hlt].
  { exists 0, []. split; [| split; [lia | now left]].
    destruct (Z.lt_total n 0) as [Hneg | [-> | Hpos]]; [| lia |].
    - now rewrite read_to_end_eof.
    - now rewrite read_bounded_eof. }
  destruct (Z.lt_total n 0) as [Hneg | [-> | Hpos]]; [| lia |].
  - rewrite (read_to_end_fetch f w n Hneg Hlt).
    destruct (is_error_status _); cbn [snd].
    + eexists 0, [_]. split; [apply Sent | split; [lia | right; eauto]].
    + eexists _, [_]. split; [reflexivity | split; [apply len_nonneg | right; eauto]].
  - rewrite (read_bounded_fetch f w n Hpos Hlt).
    destruct (is_error_status _); cbn [snd].
    + eexists 0, [_]. split; [apply Sent | split; [lia | right; eauto]].
    + eexists _, [_]. split; [reflexivity | split; [apply len_nonneg | right; eauto]].
Qed.

Lemma readinto_outcome f w b :
  exists k rqs,
    snd (readinto b (f, w))
    = (with_pos f (pos f + k),
       World (net w) (sent w ++ rqs) (logged w) (replied w))
    /\ 0 <= k
    /\ (rqs = [] \/ (pos f < size f /\ exists a b, rqs = [GET (url f) a b])).
Proof.
  destruct (Z.le_gt_cases (size f) (pos f)) as [Heof | Hlt].
  { exists 0, []. rewrite readinto_eof by assumption. cbn [snd].
    rewrite Z.add_0_r, with_pos_same, sending_none.
    split; [reflexivity | split; [lia | now left]]. }
  rewrite (readinto_fetch f w b Hlt).
  destruct (is_error_status _); cbn [snd].
  - eexists 0, [_]. rewrite Z.add_0_r, with_pos_same.
    split; [reflexivity | split; [lia | right; eauto]].
  - eexists _, [_]. split; [reflexivity | split; [apply len_nonneg | right; eauto]].
Qed.

Lemma seek_outcome f w offset whence :
  exists p, snd (seek offset whence (f, w)) = (with_pos f p, w)
            /\ (0 <= pos f -> 0 <= p).
Proof.
  destruct (whence_cases f offset whence) as [[p T] | N].
  - destruct (Z.lt_ge_cases p 0) as [Hneg | Hpos].
    + exists (pos f). rewrite (seek_negative f w offset whence p T Hneg).
      now rewrite with_pos_same.
    + exists p. now rewrite (seek_to f w offset whence p T Hpos).
  - exists (pos f). rewrite (seek_bad_whence f w offset whence N).
    now rewrite with_pos_same.
Qed.

(** What every call keeps and what it can add. *)
Lemma perform_outcome c f w :
  exists f' w' rqs,
    perform c (f, w) = (f', w')
    /\ url f' = url f /\ head f' = head f /\ size f' = size f
    /\ net w' = net w /\ replied w' = replied w
    /\ sent w' = sent w ++ rqs
    /\ (length rqs <= if is_read_call c then 1 else 0)%nat
    /\ Forall (fun r => is_ranged_get (url f) r = true) rqs
    /\ (rqs <> [] -> pos f < size f)
    /\ (0 <= pos f -> 0 <= pos f')
    /\ (forall b, is_seekable_cache f = Some b ->
                  is_seekable_cache f' = Some b /\ logged w' = logged w).
Proof.
  assert (G : forall u a b, Forall (fun r => is_ranged_get u r = true) [GET u a b]).
  { intros u a b. constructor; [| constructor]. cbn.
    now apply bool_decide_eq_true_2. }
  destruct c as [n | b | offset whence | | |]; cbn [perform is_read_call].
  - destruct (read_outcome f w n) as (k & rqs & -> & Hk & Hr).
    eexists _, _, rqs. split; [reflexivity |]. cbn.
    repeat split; try reflexivity; try lia.
    + destruct Hr as [-> | (_ & _ & a & b & ->)]; cbn; lia.
    + destruct Hr as [-> | (_ & _ & a & b & ->)]; [constructor | apply G].
    + destruct Hr as [-> | (H & _)]; [congruence | auto].
    + assumption.
  - destruct (readinto_outcome f w b) as (k & rqs & -> & Hk & Hr).
    eexists _, _, rqs. split; [reflexivity |]. cbn.
    repeat split; try reflexivity; try lia.
    + destruct Hr as [-> | (_ & a & b' & ->)]; cbn; lia.
    + destruct Hr as [-> | (_ & a & b' & ->)]; [constructor | apply G].
    + destruct Hr as [-> | (H & _)]; [congruence | auto].
    + assumption.
  - destruct (seek_outcome f w offset whence) as (p & -> & Hp).
    eexists _, _, []. split; [reflexivity |]. cbn.
    rewrite app_nil_r. repeat split; try reflexivity; try lia; try constructor;
      try congruence; try assumption.
  - exists f, w, []. cbn. rewrite app_nil_r.
    repeat split; try reflexivity; try lia; try constructor; try congruence;
      try assumption; auto.
  - destruct (is_seekable_cache f) as [b0 |] eqn:Hc.
    + rewrite (seekable_cached f w b0 Hc). exists f, w, []. cbn.
      rewrite app_nil_r.
      repeat split; try reflexivity; try lia; try constructor; try congruence;
        try assumption; auto.
    + rewrite (seekable_first_access f w Hc). cbn [snd].
      eexists _, _, []. split; [reflexivity |]. cbn.
      repeat split; try reflexivity; try lia; try constructor; try congruence;
        try (now repeat (destruct (bool_decide _); cbn)).
      all: try (rewrite app_nil_r; now repeat (destruct (bool_decide _); cbn)).
  - exists f, w, []. cbn. rewrite app_nil_r.
    repeat split; try reflexivity; try lia; try constructor; try congruence;
      try assumption; auto.
Qed.

End StreamOutcomes.

Section StreamExtras.
  Import HTTPRangeFile.

  Implicit Types (f : t) (w : world).

Lemma perform_all_cons c cs (s : state) :
  perform_all (c :: cs) s = perform_all cs (perform c s).
Proof. reflexivity. Qed.

(** Over any sequence of calls a stream sends only ranged GETs of its own
    url, at most one for each [read] or [readinto] in the sequence and none
    for the other calls; it never probes again, never replies a directory
    entry, and its url, probe response and size stay as constructed. *)
Theorem requests_only_from_reads cs : forall f w,
  let s := perform_all cs (f, w) in
  exists rqs,
    sent (snd s) = sent w ++ rqs
    /\ (length rqs <= length (List.filter is_read_call cs))%nat
    /\ Forall (fun r => is_ranged_get (url f) r = true) rqs
    /\ replied (snd s) = replied w
    /\ url (fst s) = url f /\ head (fst s) = head f /\ size (fst s) = size f.
Proof.
  induction cs as [| c cs IH]; intros f w.
  - exists []. cbn. rewrite app_nil_r. repeat split; constructor.
  - cbn zeta. rewrite perform_all_cons.
    destruct (perform_outcome c f w)
      as (f1 & w1 & r1 & -> & Hu & Hh & Hs & _ & Hrep & Hsent & Hlen & Hall & _).
    destruct (IH f1 w1) as (r2 & Hsent2 & Hlen2 & Hall2 & Hrep2 & Hu2 & Hh2 & Hs2).
    exists (r1 ++ r2). rewrite Hsent2, Hsent, <- app_assoc.
    split; [reflexivity |]. split; [| split; [| repeat split; congruence]].
    + rewrite length_app. cbn [List.filter].
      destruct (is_read_call c); cbn [length]; lia.
    + apply Forall_app. split; [exact Hall |]. now rewrite <- Hu.
Qed.

Lemma cache_stays cs : forall f w b,
  is_seekable_cache f = Some b ->
  is_seekable_cache (fst (perform_all cs (f, w))) = Some b
  /\ logged (snd (perform_all cs (f, w))) = logged w.
Proof.
  induction cs as [| c cs IH]; intros f w b Hc; [now split |].
  rewrite perform_all_cons.
  destruct (perform_outcome c f w) as (f1 & w1 & r1 & -> & Hrest).
  destruct Hrest as (_ & _ & _ & _ & _ & _ & _ & _ & _ & _ & Hcache).
  destruct (Hcache b Hc) as [Hc1 Hl1].
  destruct (IH f1 w1 b Hc1) as [Hc2 Hl2]. split; congruence.
Qed.

(** [seekable] decides once: the answer of the first access is the answer
    of every later access, after any calls in between, and from the first
    access on no call writes a log record. *)
Theorem seekable_answers_once f w cs :
  exists b,
    fst (seekable (f, w)) = Ok b
    /\ seekable (perform_all cs (snd (seekable (f, w))))
       = (Ok b, perform_all cs (snd (seekable (f, w))))
    /\ logged (snd (perform_all cs (snd (seekable (f, w)))))
       = logged (snd (snd (seekable (f, w)))).
Proof.
  assert (E : exists b f1 w1, seekable (f, w) = (Ok b, (f1, w1))
                              /\ is_seekable_cache f1 = Some b).
  { destruct (is_seekable_cache f) as [b0 |] eqn:Hc.
    - exists b0, f, w. now rewrite (seekable_cached f w b0 Hc).
    - rewrite (seekable_first_access f w Hc). now eexists _, _, _. }
  destruct E as (b & f1 & w1 & -> & Hc1). exists b. cbn [fst snd].
  destruct (cache_stays cs f1 w1 b Hc1) as [Hc2 Hl2].
  split; [reflexivity |]. split; [| exact Hl2].
  destruct (perform_all cs (f1, w1)) as [f2 w2]. now apply seekable_cached.
Qed.

Lemma at_end_stays c f w :
  size f <= 0 -> 0 <= pos f ->
  sent (snd (perform c (f, w))) = sent w
  /\ size (fst (perform c (f, w))) = size f
  /\ 0 <= pos (fst (perform c (f, w))).
Proof.
  intros Hs Hp.
  destruct (perform_outcome c f w)
    as (f1 & w1 & r1 & -> & _ & _ & Hsz & _ & _ & Hsent & _ & _ & Hne & Hpos & _).
  cbn. destruct r1 as [| r r1].
  - rewrite app_nil_r in Hsent. auto.
  - assert (pos f < size f) by (apply Hne; discriminate). lia.
Qed.

(** A resource whose probe carries no Content-Length has size 0 for the
    stream: whatever is called on it, no GET is ever sent and every [read]
    returns empty. *)
Theorem no_content_length_no_data `{Platform} u w0 f w cs n :
  init u w0 = (Ok f, w) ->
  headers (net w0 (sent w0) (HEAD u)) !! "Content-Length" = None ->
  let s := perform_all cs (f, w) in
  sent (snd s) = sent w0 ++ [HEAD u]
  /\ read n s = (Ok [], s).
Proof.
  intros Hinit Hcl s.
  assert (Hf : size f = 0 /\ pos f = 0 /\ w = sending w0 (HEAD u)).
  { revert Hinit. unfold init, bind, send, raise_for_status, of_result, ret,
      raise, content_length; cbn. rewrite Hcl.
    destruct (is_error_status _); [discriminate |]. now intros [= <- <-]. }
  destruct Hf as (Hsz & Hpos & ->).
  assert (G : forall cs f w, size f <= 0 -> 0 <= pos f ->
              sent (snd (perform_all cs (f, w))) = sent w
              /\ size (fst (perform_all cs (f, w))) <= 0
              /\ 0 <= pos (fst (perform_all cs (f, w)))).
  { clear. induction cs as [| c cs IH]; intros f w Hs Hp; [now cbn |].
    rewrite perform_all_cons.
    destruct (at_end_stays c f w Hs Hp) as (Hsent & Hsz & Hp1).
    destruct (perform c (f, w)) as [f1 w1]. cbn in *.
    destruct (IH f1 w1 ltac:(lia) Hp1) as (? & ? & ?).
    repeat split; [congruence | assumption | assumption]. }
  destruct (G cs f (sending w0 (HEAD u)) ltac:(lia) ltac:(lia)) as (Hsent & Hs1 & Hp1).
  fold s in Hsent, Hs1, Hp1. split; [exact Hsent |].
  destruct s as [f1 w1]. cbn in Hs1, Hp1.
  destruct (Z.eq_dec n 0) as [-> | Hn]; [apply read_zero |].
  destruct (Z.lt_total n 0) as [Hneg | [-> | Hpos']]; [| lia |].
  - apply read_to_end_eof; lia.
  - apply read_bounded_eof; lia.
Qed.

(** A [read] or [readinto] that raises has not moved the stream: the
    stream object, position included, is as it was before the call, and
    [tell] returns what it returned before. *)
Theorem read_failure_keeps_stream f w :
  (forall n e, fst (read n (f, w)) = Raise e ->
     fst (snd (read n (f, w))) = f
     /\ fst (tell (snd (read n (f, w)))) = Ok (pos f))
  /\ (forall b e, fst (readinto b (f, w)) = Raise e ->
      fst (snd (readinto b (f, w))) = f
      /\ fst (tell (snd (readinto b (f, w)))) = Ok (pos f)).
Proof.
  split.
  - intros n e.
    destruct (Z.eq_dec n 0) as [-> | Hn]; [now rewrite read_zero |].
    destruct (Z.le_gt_cases (size f) (pos f)) as [Heof | Hlt].
    { destruct (Z.lt_total n 0) as [Hneg | [-> | Hpos]]; [| lia |].
      - now rewrite read_to_end_eof.
      - now rewrite read_bounded_eof. }
    destruct (Z.lt_total n 0) as [Hneg | [-> | Hpos]]; [| lia |].
    + rewrite (read_to_end_fetch f w n Hneg Hlt).
      destruct (is_error_status _); [| discriminate]. now split.
    + rewrite (read_bounded_fetch f w n Hpos Hlt).
      destruct (is_error_status _); [| discriminate]. now split.
  - intros b e.
    destruct (Z.le_gt_cases (size f) (pos f)) as [Heof | Hlt];
      [now rewrite readinto_eof |].
    rewrite (readinto_fetch f w b Hlt).
    destruct (is_error_status _); [| discriminate]. now split.
Qed.

End StreamExtras.

Lemma no_content_length_no_data_witness :
  HTTPRangeFile.read 4
    (perform_all [Seek 3 0; Read 2]
       (HTTPRangeFile.mk "http://h/a" (Response 200 ∅ []) 0 0 None,
        sending (quiet (not_found_server hello)) (HEAD "http://h/a")))
  = (Ok [],
     (HTTPRangeFile.mk "http://h/a" (Response 200 ∅ []) 0 3 None,
      sending (quiet (not_found_server hello)) (HEAD "http://h/a"))).
Proof.
  exact (proj2 (@no_content_length_no_data linux "http://h/a"
                  (quiet (not_found_server hello))
                  (HTTPRangeFile.mk "http://h/a" (Response 200 ∅ []) 0 0 None)
                  (sending (quiet (not_found_server hello)) (HEAD "http://h/a"))
                  [Seek 3 0; Read 2] 4 eq_refl eq_refl)).
Defined.

Lemma read_failure_keeps_stream_witness :
  fst (snd (HTTPRangeFile.read 4
              (stream_at 1 None, quiet (not_found_server hello))))
  = stream_at 1 None.
Proof.
  exact (proj1 (proj1 (read_failure_keeps_stream (stream_at 1 None)
                         (quiet (not_found_server hello)))
                  4 (HTTPError 404) eq_refl)).
Defined.

(** ** Reading a resource served with byte ranges *)

Lemma take_then_take {A} (l : list A) (n m : nat) :
  take n l ++ take m (drop n l) = take (n + m) l.
Proof.
  revert l. induction n as [| n IH]; intros l; [reflexivity |].
  destruct l as [| x l]; cbn; [now rewrite take_nil | now rewrite IH].
Qed.

Lemma drop_taken {A} (l : list A) (n : nat) :
  drop (length (take n l)) l = drop n l.
Proof.
  rewrite length_take. destruct (Nat.le_gt_cases n (length l)).
  - now rewrite Nat.min_l.
  - rewrite Nat.min_r by lia. now rewrite !drop_ge by lia.
Qed.

Lemma take_at_most {A} (l : list A) (n : Z) :
  0 <= n -> take (Z.to_nat (Z.min n (len l))) l = take (Z.to_nat n) l.
Proof.
  intros Hn. unfold len. destruct (Z.le_gt_cases n (Z.of_nat (length l))).
  - now rewrite Z.min_l.
  - rewrite Z.min_r by lia. rewrite Nat2Z.id. now rewrite !take_ge by lia.
Qed.

Lemma len_drop {A} (l : list A) (p : Z) :
  0 <= p -> p <= len l -> len (drop (Z.to_nat p) l) = len l - p.
Proof. intros Hp Hl. unfold len in *. rewrite length_drop. lia. Qed.

Section RangeServer.
  Import HTTPRangeFile.

  Variable body : list byte.
  Variable accept_ranges : option string.

  Implicit Types (f : t) (w : world).

(** A read against the range server, for a stream that knows the length. *)
Lemma read_range_server f w n :
  net w = range_server body accept_ranges ->
  size f = len body -> 0 <= pos f ->
  exists w',
    read n (f, w)
    = (Ok (chunk body (pos f) n),
       (with_pos f (pos f + len (chunk body (pos f) n)), w'))
    /\ net w' = net w.
Proof.
  intros Hnet Hsz Hp. unfold chunk.
  destruct (Z.eq_dec n 0) as [-> | Hn].
  { exists w. rewrite read_zero. cbn. unfold len.
    change (Z.to_nat 0) with 0%nat. rewrite take_0.
    change (Z.of_nat (length [])) with 0.
    now rewrite Z.add_0_r, with_pos_same. }
  destruct (Z.le_gt_cases (size f) (pos f)) as [Heof | Hlt].
  { exists w.
    assert (D : drop (Z.to_nat (pos f)) body = [])
      by (apply drop_ge; unfold len in *; lia).
    rewrite D, take_nil.
    replace (if n <? 0 then [] else []) with (@nil byte)
      by (now destruct (n <? 0)).
    change (len (@nil byte)) with 0. rewrite Z.add_0_r, with_pos_same.
    split; [| reflexivity].
    destruct (Z.lt_total n 0) as [Hneg | [-> | Hpos]]; [| lia |].
    - now rewrite read_to_end_eof.
    - now rewrite read_bounded_eof. }
  assert (Hd : len (drop (Z.to_nat (pos f)) body) = size f - pos f)
    by (rewrite len_drop; lia).
  destruct (Z.ltb_spec n 0) as [Hneg | Hpos].
  - rewrite (read_to_end_fetch f w n Hneg Hlt), Hnet. cbn.
    destruct (Z.leb_spec 0 (pos f)); [| lia].
    destruct (Z.leb_spec (pos f) (size f - 1)); [| lia].
    destruct (Z.ltb_spec (pos f) (len body)); [| lia]. cbn.
    rewrite take_ge by (unfold len in *; rewrite length_drop; lia).
    eexists. split; [reflexivity | exact Hnet].
  - rewrite (read_bounded_fetch f w n ltac:(lia) Hlt), Hnet. cbn.
    destruct (Z.leb_spec 0 (pos f)); [| lia].
    destruct (Z.leb_spec (pos f) (Z.min (pos f + n - 1) (size f - 1))); [| lia].
    destruct (Z.ltb_spec (pos f) (len body)); [| lia]. cbn.
    replace (Z.min (pos f + n - 1) (size f - 1) - pos f + 1)
      with (Z.min n (len (drop (Z.to_nat (pos f)) body))) by lia.
    rewrite take_at_most by lia.
    eexists. split; [reflexivity | exact Hnet].
Qed.

(** Round trip.  Against a server that holds [body] and honours byte
    ranges, a stream that knows the length and stands at a position
    [p >= 0] returns on [read n] exactly the bytes of [body] from [p] on, at
    most [n] of them for [n >= 0] and all of them for [n < 0], and stands
    behind them afterwards. *)
Theorem read_returns_resource f w n :
  net w = range_server body accept_ranges ->
  size f = len body -> 0 <= pos f ->
  fst (read n (f, w)) = Ok (chunk body (pos f) n)
  /\ pos (fst (snd (read n (f, w)))) = pos f + len (chunk body (pos f) n)
  /\ (n < 0 -> pos f <= len body ->
      pos (fst (snd (read n (f, w)))) = len body).
Proof.
  intros Hnet Hsz Hp.
  destruct (read_range_server f w n Hnet Hsz Hp) as (w' & -> & _). cbn.
  repeat split. intros Hn Hle. unfold chunk.
  destruct (Z.ltb_spec n 0); [| lia]. rewrite len_drop; lia.
Qed.

(** Two reads in a row return, one after the other, what one read of the
    sum returns from the same start, and leave the stream at the same
    position. *)
Theorem reads_concatenate f w a b :
  net w = range_server body accept_ranges ->
  size f = len body -> 0 <= pos f -> 0 < a -> 0 < b ->
  let first := read a (f, w) in
  let second := read b (snd first) in
  exists r1 r2,
    fst first = Ok r1 /\ fst second = Ok r2
    /\ fst (read (a + b) (f, w)) = Ok (r1 ++ r2)
    /\ pos (fst (snd second)) = pos (fst (snd (read (a + b) (f, w)))).
Proof.
  intros Hnet Hsz Hp Ha Hb first second. subst second first.
  destruct (read_range_server f w a Hnet Hsz Hp) as (w1 & -> & Hnet1).
  cbn [fst snd].
  set (r1 := chunk body (pos f) a).
  assert (Hp1 : 0 <= pos (with_pos f (pos f + len r1)))
    by (cbn; pose proof (len_nonneg r1); lia).
  destruct (read_range_server (with_pos f (pos f + len r1)) w1 b
              ltac:(congruence) Hsz Hp1) as (w2 & -> & _).
  destruct (read_range_server f w (a + b) Hnet Hsz Hp) as (w3 & -> & _).
  cbn [fst snd pos with_pos].
  assert (Hcat : r1 ++ chunk body (pos f + len r1) b = chunk body (pos f) (a + b)).
  { subst r1. unfold chunk.
    destruct (Z.ltb_spec a 0); [lia |]. destruct (Z.ltb_spec b 0); [lia |].
    destruct (Z.ltb_spec (a + b) 0); [lia |].
    set (l := drop (Z.to_nat (pos f)) body).
    replace (Z.to_nat (pos f + len (take (Z.to_nat a) l)))
      with (Z.to_nat (pos f) + length (take (Z.to_nat a) l))%nat
      by (unfold len; lia).
    rewrite <- drop_drop. fold l. rewrite drop_taken.
    replace (Z.to_nat (a + b)) with (Z.to_nat a + Z.to_nat b)%nat by lia.
    apply take_then_take. }
  exists r1, (chunk body (pos f + len r1) b).
  repeat split; [now rewrite Hcat |].
  rewrite <- Hcat, len_app. lia.
Qed.

End RangeServer.

Lemma read_returns_resource_witness :
  fst (HTTPRangeFile.read 9
         (stream_at 3 None, quiet (range_server hello None)))
  = Ok [x6c; x6f].
Proof.
  exact (proj1 (read_returns_resource hello None (stream_at 3 None)
                  (quiet (range_server hello None)) 9
                  eq_refl eq_refl ltac:(cbn; lia))).
Defined.

Lemma reads_concatenate_witness :
  exists r1 r2,
    fst (HTTPRangeFile.read 2 (stream_at 1 None, quiet (range_server hello None)))
    = Ok r1
    /\ fst (HTTPRangeFile.read 9
              (snd (HTTPRangeFile.read 2
                      (stream_at 1 None, quiet (range_server hello None)))))
       = Ok r2
    /\ fst (HTTPRangeFile.read 11
              (stream_at 1 None, quiet (range_server hello None)))
       = Ok (r1 ++ r2).
Proof.
  destruct (reads_concatenate hello None (stream_at 1 None)
              (quiet (range_server hello None)) 2 9
              eq_refl eq_refl ltac:(cbn; lia) ltac:(lia) ltac:(lia))
    as (r1 & r2 & E1 & E2 & E3 & _).
  exists r1, r2. now repeat split.
Defined.

(** ** The buffer of readinto, seeks in a row, construction *)

Section StreamMore.
  Import HTTPRangeFile.

  Implicit Types (f : t) (w : world).

(** [readinto] that returns the count [k] has received [k] bytes, the
    content of the response to its one request, has put them at the start
    of the buffer and left the bytes behind them as they were, and has moved
    the stream by [k]; at the end of the resource nothing is requested, [k]
    is 0 and buffer and state are untouched; when the server sends no more
    than the range, the buffer keeps its length. *)
Theorem readinto_fills_prefix f w b k b' s' :
  readinto b (f, w) = (Ok (k, b'), s') ->
  let rq := GET (url f) (pos f) (Z.min (pos f + len b - 1) (size f - 1)) in
  let data := if size f <=? pos f then [] else content (net w (sent w) rq) in
  k = len data
  /\ b' = data ++ drop (length data) b
  /\ take (length data) b' = data
  /\ drop (length data) b' = drop (length data) b
  /\ s' = (with_pos f (pos f + k),
           if size f <=? pos f then w else sending w rq)
  /\ (honours_ranges (net w) -> length b' = length b).
Proof.
  intros E rq data. subst data.
  destruct (Z.leb_spec (size f) (pos f)) as [Heof | Hlt].
  - rewrite readinto_eof in E by assumption. injection E as <- <- <-.
    cbn. rewrite Z.add_0_r, with_pos_same. now repeat split.
  - pose proof E as E0. rewrite (readinto_fetch f w b Hlt) in E. fold rq in E.
    destruct (is_error_status _); [discriminate |].
    injection E as <- <- <-.
    split; [reflexivity |]. unfold len. rewrite Nat2Z.id.
    split; [reflexivity |]. split; [apply take_app_length |].
    split; [apply drop_app_length |]. split; [reflexivity |].
    intros Hon.
    destruct (readinto_within_bounds f w b _ _ _ Hon E0) as [Hk _].
    rewrite length_app, length_drop. unfold len in Hk. lia.
Qed.

(** Seeks in a row add up: a seek from the start to [a >= 0] followed by a
    relative seek by [b] is the seek from the start to [a + b], and two
    relative seeks by [a] and [b] are the relative seek by [a + b], as long
    as no target is negative; a relative seek by 0 moves nothing and returns
    the position, like [tell]. *)
Theorem seeks_add_up f w a b :
  (0 <= a -> 0 <= a + b ->
   seek b SEEK_CUR (snd (seek a SEEK_SET (f, w))) = seek (a + b) SEEK_SET (f, w))
  /\ (0 <= pos f + a -> 0 <= pos f + a + b ->
      seek b SEEK_CUR (snd (seek a SEEK_CUR (f, w)))
      = seek (a + b) SEEK_CUR (f, w))
  /\ (0 <= pos f -> seek 0 SEEK_CUR (f, w) = tell (f, w)).
Proof.
  split; [| split].
  - intros Ha Hab.
    rewrite (seek_to f w a SEEK_SET a (from_start f a) Ha). cbn [snd].
    rewrite (seek_to f w (a + b) SEEK_SET (a + b) (from_start f (a + b)) Hab).
    now rewrite (seek_to (with_pos f a) w b SEEK_CUR (a + b)
                   (from_current (with_pos f a) b) Hab).
  - intros Ha Hab.
    rewrite (seek_to f w a SEEK_CUR _ (from_current f a) Ha). cbn [snd].
    rewrite (seek_to f w (a + b) SEEK_CUR _ (from_current f (a + b))
               ltac:(lia)).
    rewrite (seek_to (with_pos f (pos f + a)) w b SEEK_CUR _
               (from_current (with_pos f (pos f + a)) b) Hab).
    cbn. now rewrite Z.add_assoc.
  - intros Hp.
    rewrite (seek_to f w 0 SEEK_CUR _ (from_current f 0) ltac:(lia)).
    now rewrite Z.add_0_r, with_pos_same.
Qed.

(** Construction sends exactly one HEAD.  An error status of the probe
    raises HTTPError and no stream exists; a Content-Length that [int]
    rejects raises what [int] raises; otherwise the stream starts at
    position 0 with the probe response kept, nothing cached, and the size
    the header gives, 0 without the header. *)
Theorem init_contract `{Platform} u w0 :
  let probe := net w0 (sent w0) (HEAD u) in
  snd (init u w0) = sending w0 (HEAD u)
  /\ (is_error_status (status_code probe) = true ->
      fst (init u w0) = Raise (HTTPError (status_code probe)))
  /\ (is_error_status (status_code probe) = false ->
      match headers probe !! "Content-Length" with
      | None => fst (init u w0) = Ok (mk u probe 0 0 None)
      | Some v =>
          match py_int v with
          | Ok n => fst (init u w0) = Ok (mk u probe n 0 None)
          | Raise e => fst (init u w0) = Raise e
          end
      end).
Proof.
  intros probe.
  unfold init, bind, send, raise_for_status, of_result, ret, raise,
    content_length; cbn. fold probe.
  destruct (is_error_status (status_code probe)); cbn.
  - split; [reflexivity | split; [reflexivity | discriminate]].
  - split; [| split; [discriminate | intros _]].
    + destruct (headers probe !! "Content-Length") as [v |]; cbn;
        [now destruct (py_int v) | reflexivity].
    + destruct (headers probe !! "Content-Length") as [v |]; cbn;
        [now destruct (py_int v) | reflexivity].
Qed.

End StreamMore.

Lemma readinto_fills_prefix_witness :
  2 = len [x6c; x6f]
  /\ [x6c; x6f; x00] = [x6c; x6f] ++ drop 2 [x00; x00; x00]
  /\ length [x6c; x6f; x00] = length [x00; x00; x00].
Proof.
  destruct (readinto_fills_prefix (stream_at 3 None)
              (quiet (range_server hello None)) [x00; x00; x00]
              2 [x6c; x6f; x00]
              (stream_at 5 None,
               sending (quiet (range_server hello None)) (GET "http://h/f" 3 4))
              eq_refl) as (Hk & Hb & _ & _ & _ & Hl).
  split; [exact Hk | split; [exact Hb |]].
  exact (Hl (range_server_honours_ranges hello None)).
Defined.

Lemma seeks_add_up_witness :
  HTTPRangeFile.seek (-2) HTTPRangeFile.SEEK_CUR
    (snd (HTTPRangeFile.seek 4 HTTPRangeFile.SEEK_SET
            (stream_at 1 None, quiet (range_server hello None))))
  = HTTPRangeFile.seek 2 HTTPRangeFile.SEEK_SET
      (stream_at 1 None, quiet (range_server hello None)).
Proof.
  exact (proj1 (seeks_add_up (stream_at 1 None)
                  (quiet (range_server hello None)) 4 (-2))
           ltac:(lia) ltac:(lia)).
Defined.

Lemma init_contract_witness :
  fst (@HTTPRangeFile.init linux "http://h/a" (quiet (not_found_server hello)))
  = Ok (HTTPRangeFile.mk "http://h/a" (Response 200 ∅ []) 0 0 None).
Proof.
  destruct (@init_contract linux "http://h/a" (quiet (not_found_server hello)))
    as (_ & _ & C).
  exact (C eq_refl).
Defined.

(** ** open_http *)

Section OpenHttpProperties.
  Context {Buffered Text Encoding : Type}.
  Variable BufferedReader : HTTPRangeFile.t -> Buffered.
  Variable TextIOWrapper :
    Buffered -> Encoding -> option string -> option string -> result Text.
  Variable encoding_or_default : option string -> Encoding.
  Context `{Platform}.

(** A mode in which "w", "a" or "+" occurs is refused with ValueError
    before anything is sent; any other mode probes the url once, and a
    failed construction of the stream is raised as it is; with "b" in the
    mode the result is the buffered reader over the new stream. *)
Theorem open_http_modes u mode encoding errors newline w :
  let call := open_http BufferedReader TextIOWrapper encoding_or_default
                u mode encoding errors newline w in
  (py_in "w" mode = true \/ py_in "a" mode = true \/ py_in "+" mode = true ->
   call = (Raise (ValueError "only read modes are supported ('rb' or 'r')"), w))
  /\ (py_in "w" mode = false -> py_in "a" mode = false ->
      py_in "+" mode = false ->
      sent (snd call) = sent w ++ [HEAD u]
      /\ (forall e, fst (HTTPRangeFile.init u w) = Raise e -> fst call = Raise e)
      /\ (py_in "b" mode = true ->
          forall raw, fst (HTTPRangeFile.init u w) = Ok raw ->
                      fst call = Ok (inl (BufferedReader raw)))).
Proof.
  intros call. subst call. unfold open_http. cbn [existsb]. split.
  - intros [-> | [-> | ->]]; cbn; rewrite ?orb_true_r; reflexivity.
  - intros -> -> ->. cbn [orb].
    pose proof (proj1 (init_contract u w)) as Hsent.
    unfold bind, of_result, ret.
    destruct (HTTPRangeFile.init u w) as [[raw | e] w1];
      cbn [fst snd] in *; subst w1.
    + destruct (py_in "b" mode); cbn [negb fst snd].
      * split; [reflexivity | split; [intros e' E; discriminate E |]].
        intros _ raw' [= <-]. reflexivity.
      * destruct (TextIOWrapper (BufferedReader raw)
                    (encoding_or_default encoding) errors newline);
          cbn [fst snd];
          (split; [reflexivity
                  | split; [intros e' E; discriminate E
                           | intros E; discriminate E]]).
    + split; [reflexivity | split; [now intros e' [= <-] |]].
      intros _ raw E. discriminate E.
Qed.

End OpenHttpProperties.

Lemma open_http_modes_witness :
  @open_http HTTPRangeFile.t unit unit (fun raw => raw)
    (fun _ _ _ _ => Ok tt) (fun _ => tt) linux
    "http://h/f" "r+b" None None None (quiet (range_server hello None))
  = (Raise (ValueError "only read modes are supported ('rb' or 'r')"),
     quiet (range_server hello None))
  /\ fst (@open_http HTTPRangeFile.t unit unit (fun raw => raw)
            (fun _ _ _ _ => Ok tt) (fun _ => tt) linux
            "http://h/f" "rb" None None None (quiet (range_server hello None)))
     = Ok (inl (stream_at 0 None)).
Proof.
  split.
  - apply (@open_http_modes HTTPRangeFile.t unit unit (fun raw => raw)
             (fun _ _ _ _ => Ok tt) (fun _ => tt) linux
             "http://h/f" "r+b" None None None
             (quiet (range_server hello None))).
    right. right. reflexivity.
  - destruct (@open_http_modes HTTPRangeFile.t unit unit (fun raw => raw)
                (fun _ _ _ _ => Ok tt) (fun _ => tt) linux
                "http://h/f" "rb" None None None
                (quiet (range_server hello None))) as [_ C].
    destruct (C eq_refl eq_refl eq_refl) as (_ & _ & B).
    exact (B eq_refl (stream_at 0 None) eq_refl).
Defined.

(** * Further properties of the bridge *)

Section Registry.
  Context `{Platform}.

Lemma init_files_from (items : list (string * string)) : forall acc,
  fold_left
    (fun fs item =>
       let ino := ROOT_INODE + 1 + len fs in
       fs ++ [webfile.mk ino (fst item) (snd item)])
    items acc
  = acc ++ imap (fun i => entry_of (length acc + i)) items.
Proof.
  induction items as [| item items IH]; intros acc; cbn [fold_left].
  - cbn. now rewrite app_nil_r.
  - rewrite IH, <- app_assoc. f_equal. cbn [imap app]. f_equal.
    + unfold entry_of, len. now rewrite Nat.add_0_r.
    + apply imap_ext. intros i x _. cbn. rewrite length_app. cbn.
      f_equal. lia.
Qed.

Lemma init_files (config : list (string * string)) :
  tempofs.files (tempofs.init config) = imap entry_of config.
Proof.
  unfold tempofs.init. cbn [tempofs.files]. rewrite init_files_from. cbn.
  apply imap_ext. now intros i x _.
Qed.

Lemma find_in_entries (items : list (string * string)) : forall k i item,
  items !! i = Some item ->
  tempofs.find_in (imap (fun j => entry_of (k + j)) items)
                  (ROOT_INODE + 1 + Z.of_nat (k + i))
  = Ok (entry_of (k + i) item).
Proof.
  induction items as [| it items IH]; intros k i item Hi; [discriminate |].
  cbn [imap tempofs.find_in]. destruct i as [| i].
  - injection Hi as ->. cbn [webfile.inode entry_of].
    now rewrite Z.eqb_refl.
  - cbn in Hi. cbn [webfile.inode entry_of].
    destruct (Z.eqb_spec (ROOT_INODE + 1 + Z.of_nat (k + 0))
                         (ROOT_INODE + 1 + Z.of_nat (k + S i))); [lia |].
    rewrite (imap_ext _ (fun j => entry_of (S k + j)))
      by (intros j x _; cbn; f_equal; lia).
    replace (k + S i)%nat with (S k + i)%nat by lia. now apply IH.
Qed.

Lemma lookup_in_entries (items : list (string * string)) : forall k i item w,
  NoDup (map fst items) -> items !! i = Some item ->
  tempofs.lookup_in (imap (fun j => entry_of (k + j)) items) (fst item) w
  = (Ok (getattr_of (entry_of (k + i) item)), w).
Proof.
  induction items as [| it items IH]; intros k i item w Hnd Hi; [discriminate |].
  cbn [imap tempofs.lookup_in]. cbn in Hnd. apply NoDup_cons in Hnd as [Hnot Hnd].
  destruct i as [| i].
  - injection Hi as ->. cbn [webfile.name entry_of].
    rewrite bool_decide_eq_true_2 by reflexivity. unfold ret.
    now rewrite Nat.add_0_r.
  - cbn in Hi. cbn [webfile.name entry_of].
    rewrite bool_decide_eq_false_2.
    + rewrite (imap_ext _ (fun j => entry_of (S k + j)))
        by (intros j x _; cbn; f_equal; lia).
      rewrite (IH (S k) i item w Hnd Hi).
      now replace (k + S i)%nat with (S k + i)%nat by lia.
    + intros E. apply Hnot. rewrite E. apply list_elem_of_fmap.
      exists item. split; [reflexivity |]. now apply list_elem_of_lookup_2 in Hi.
Qed.

(** The registry built from a configuration gives the item at index [i] the
    identifier [ROOT_INODE + 1 + i], and [find] on that identifier gives
    back exactly that item's entry; [find] raises IndexError on the root
    identifier and on every identifier outside the contiguous block. *)
Theorem registry_round_trip (config : list (string * string)) :
  (forall i item, config !! i = Some item ->
     tempofs.find (tempofs.init config) (ROOT_INODE + 1 + Z.of_nat i)
     = Ok (entry_of i item))
  /\ (forall ino, ino <= ROOT_INODE \/ ROOT_INODE + len config < ino ->
        tempofs.find (tempofs.init config) ino = Raise IndexError)
  /\ length (tempofs.files (tempofs.init config)) = length config.
Proof.
  split; [| split].
  - intros i item Hi. unfold tempofs.find. rewrite init_files.
    exact (find_in_entries config 0 i item Hi).
  - intros ino Hout. unfold tempofs.find. rewrite init_files.
    apply find_in_unknown. intros f Hf.
    apply elem_of_lookup_imap in Hf as (i & item & -> & Hi).
    apply lookup_lt_Some in Hi. unfold entry_of, len in *. cbn. lia.
  - rewrite init_files. apply length_imap.
Qed.

(** Under the root, [lookup] of a configured name answers with the pending
    [getattr] of that name's entry, names being unique in a configuration;
    and no [lookup] ever sends a request, writes a log record or replies. *)
Theorem lookup_by_name (config : list (string * string)) :
  (forall i item w,
     NoDup (map fst config) -> config !! i = Some item ->
     tempofs.lookup (tempofs.init config) ROOT_INODE (fst item) w
     = (Ok (getattr_of (entry_of i item)), w))
  /\ (forall (self : tempofs.t) parent nm w,
        snd (tempofs.lookup self parent nm w) = w).
Proof.
  split.
  - intros i item w Hnd Hi. unfold tempofs.lookup.
    rewrite Z.eqb_refl. cbn [negb]. rewrite init_files.
    exact (lookup_in_entries config 0 i item w Hnd Hi).
  - intros self parent nm w. unfold tempofs.lookup.
    destruct (negb _); [reflexivity |].
    induction (tempofs.files self) as [| f fs IH]; [reflexivity |].
    cbn. now destruct (bool_decide _).
Qed.

End Registry.

Lemma registry_round_trip_witness :
  tempofs.find two_files 3 = Ok (webfile.mk 3 "b" "http://h/b").
Proof.
  exact (proj1 (@registry_round_trip linux
                  [("a", "http://h/a"); ("b", "http://h/b")])
           1%nat ("b", "http://h/b") eq_refl).
Defined.

Lemma lookup_by_name_witness :
  fst (@tempofs.lookup linux two_files 1 "b" (quiet (range_server hello None)))
  = Ok (getattr_of (webfile.mk 3 "b" "http://h/b")).
Proof.
  pose proof (proj1 (@lookup_by_name linux
                       [("a", "http://h/a"); ("b", "http://h/b")])
                1%nat ("b", "http://h/b") (quiet (range_server hello None))) as L.
  assert (Hnd : NoDup (map fst [("a", "http://h/a"); ("b", "http://h/b")])).
  { apply (bool_decide_unpack _). vm_compute. exact I. }
  exact (f_equal fst (L Hnd eq_refl)).
Defined.

(** ** Attributes, open, directory edges, bridge reads *)

Section BridgeMore.
  Context `{Platform}.

  Implicit Types (self : tempofs.t) (w : world).

(** What a successful [webfile.getattr] returns, by the headers of the
    probe, whatever its status. *)
Lemma webfile_getattr_ok (g : webfile.t) w a :
  fst (webfile.getattr g w) = Ok a ->
  let probe := net w (sent w) (HEAD (webfile.url g)) in
  st_ino a = webfile.inode g
  /\ st_mode a = Z.lor S_IFREG mode_444
  /\ st_ctime_ns a = st_mtime_ns a /\ st_atime_ns a = st_mtime_ns a
  /\ st_gid a = 0 /\ st_uid a = 0
  /\ (headers probe !! "Last-Modified" = None -> st_mtime_ns a = 0)
  /\ match headers probe !! "Content-Length" with
     | None => st_size a = 0
     | Some v => py_int v = Ok (st_size a)
     end.
Proof.
  unfold webfile.getattr, bind, send, try_except, of_result, ret; cbn.
  destruct (headers _ !! "Last-Modified") as [d |]; cbn.
  - destruct (timestamp_ns d) as [ts | e]; cbn.
    + destruct (headers _ !! "Content-Length") as [c |]; cbn.
      * destruct (py_int c); cbn; [| discriminate].
        intros [= <-]. cbn. repeat split; discriminate.
      * intros [= <-]. cbn. repeat split; discriminate.
    + destruct (is_KeyError e); cbn; [| discriminate].
      destruct (headers _ !! "Content-Length") as [c |]; cbn.
      * destruct (py_int c); cbn; [| discriminate].
        intros [= <-]. cbn. repeat split; discriminate.
      * intros [= <-]. cbn. repeat split; discriminate.
  - destruct (headers _ !! "Content-Length") as [c |]; cbn.
    + destruct (py_int c); cbn; [| discriminate].
      intros [= <-]. cbn. now repeat split.
    + intros [= <-]. cbn. now repeat split.
Qed.

Lemma getattr_in_found fs ino g w :
  tempofs.find_in fs ino = Ok g ->
  tempofs.getattr_in fs ino w
  = bind (webfile.getattr g)
         (fun e => ret (mkEntry ino (st_mode e) (st_size e)
                                (st_ctime_ns e) (st_atime_ns e) (st_mtime_ns e)
                                getgid getuid)) w.
Proof.
  induction fs as [| f fs IH]; [discriminate |]. cbn.
  destruct (webfile.inode f =? ino); [now intros [= ->] | exact IH].
Qed.

(** [getattr] of the root sends nothing and gives the directory with mode
    0o40755 (0x41ed), size 0 and the owner of the process.  [getattr] of a file
    sends exactly one HEAD to its url and, when it returns, gives a regular
    file with mode 0o100444 (0x8124), so without any write or execute bit
    (0o333 is 0xdb), the
    identifier asked for, the owner of the process, the three times equal
    (0 without Last-Modified), and the size of Content-Length (0 without
    the header); the status of the probe plays no part. *)
Theorem getattr_contract self ino w :
  (ino = ROOT_INODE ->
   tempofs.getattr self ino w
   = (Ok (mkEntry ROOT_INODE 0x41ed 0 0 0 0 getgid getuid), w))
  /\ (ino <> ROOT_INODE ->
      forall g, tempofs.find self ino = Ok g ->
        let probe := net w (sent w) (HEAD (webfile.url g)) in
        snd (tempofs.getattr self ino w) = sending w (HEAD (webfile.url g))
        /\ forall a, fst (tempofs.getattr self ino w) = Ok a ->
             st_ino a = ino
             /\ st_mode a = 0x8124
             /\ Z.land (st_mode a) 0xdb = 0
             /\ st_ctime_ns a = st_mtime_ns a /\ st_atime_ns a = st_mtime_ns a
             /\ st_gid a = getgid /\ st_uid a = getuid
             /\ (headers probe !! "Last-Modified" = None -> st_mtime_ns a = 0)
             /\ match headers probe !! "Content-Length" with
                | None => st_size a = 0
                | Some v => py_int v = Ok (st_size a)
                end).
Proof.
  split.
  - intros ->. unfold tempofs.getattr. now rewrite Z.eqb_refl.
  - intros Hroot g F probe. unfold tempofs.getattr.
    destruct (Z.eqb_spec ino ROOT_INODE); [contradiction |].
    rewrite (getattr_in_found _ _ _ w F). unfold bind, ret.
    pose proof (getattr_sends g w) as Hw.
    pose proof (webfile_getattr_ok g w) as Hok.
    destruct (webfile.getattr g w) as [[e | x] w1]; cbn in Hw; subst w1; cbn.
    + split; [reflexivity |]. intros a [= <-]. cbn.
      destruct (Hok e eq_refl) as (_ & Hm & Hc & Ha & _ & _ & Hlm & Hcl).
      rewrite Hm. repeat split; try assumption; reflexivity.
    + split; [reflexivity | discriminate].
Qed.

Lemma write_intent_false flags :
  ~ has_write_intent flags -> tempofs.write_intent flags = false.
Proof.
  unfold has_write_intent, tempofs.write_intent, truthy. intros N.
  repeat (sign_case; cbn; [| exfalso; apply N; tauto]). reflexivity.
Qed.

Lemma find_in_raises fs ino e :
  tempofs.find_in fs ino = Raise e -> e = IndexError.
Proof.
  induction fs as [| f fs IH]; cbn; [now intros [= <-] |].
  now destruct (webfile.inode f =? ino).
Qed.

Lemma getfileinfo_ok (g : webfile.t) w :
  exists ns logs,
    webfile.getfileinfo g w
    = (Ok (mkFileInfo (webfile.inode g) true ns),
       World (net w) (sent w ++ [HEAD (webfile.url g)]) (logged w ++ logs)
             (replied w)).
Proof.
  rewrite getfileinfo_eval.
  destruct (headers _ !! "Accept-Ranges") as [s |].
  - destruct (bool_decide (s = "bytes")).
    + exists false, []. unfold sending. cbn. now rewrite app_nil_r.
    + destruct (bool_decide (s ∈ webfile.silent_values)).
      * exists true, [(WARNING, Nonseekable (webfile.name g))].
        reflexivity.
      * exists true, [(WARNING, UnknownAcceptRanges s);
                      (WARNING, Nonseekable (webfile.name g))].
        unfold logging, sending. cbn. now rewrite <- app_assoc.
  - exists true, [(WARNING, UnknownAcceptRanges "True");
                  (WARNING, Nonseekable (webfile.name g))].
    unfold logging, sending. cbn. now rewrite <- app_assoc.
Qed.

(** The outcomes of [open].  It raises FUSEError(EACCES) exactly for flags
    with a write-intent bit and FUSEError(ENOENT) exactly for read-only
    flags on an identifier [find] does not know; it never raises HTTPError,
    the status of the probe not being looked at; and for read-only flags on
    a known identifier the response to the one HEAD it sends, whatever its
    status, is answered with the identifier as file handle, keep_cache set,
    and nonseekable by the Accept-Ranges header alone. *)
Theorem open_outcomes self ino flags w :
  (fst (tempofs.open self ino flags w) = Raise (FUSEError EACCES)
   <-> has_write_intent flags)
  /\ (fst (tempofs.open self ino flags w) = Raise (FUSEError ENOENT)
      <-> ~ has_write_intent flags /\ tempofs.find self ino = Raise IndexError)
  /\ (forall status,
        fst (tempofs.open self ino flags w) <> Raise (HTTPError status))
  /\ (forall g, ~ has_write_intent flags -> tempofs.find self ino = Ok g ->
        let probe := net w (sent w) (HEAD (webfile.url g)) in
        fst (tempofs.open self ino flags w)
        = Ok (mkFileInfo ino true
                (negb (bool_decide
                         (headers probe !! "Accept-Ranges" = Some "bytes"))))
        /\ sent (snd (tempofs.open self ino flags w))
           = sent w ++ [HEAD (webfile.url g)]).
Proof.
  assert (Dec : has_write_intent flags \/ ~ has_write_intent flags).
  { unfold has_write_intent.
    destruct (Z.eq_dec (Z.land flags O_APPEND) 0);
      destruct (Z.eq_dec (Z.land flags O_TRUNC) 0);
      destruct (Z.eq_dec (Z.land flags O_RDWR) 0);
      destruct (Z.eq_dec (Z.land flags O_WRONLY) 0); tauto. }
  destruct Dec as [I | N].
  - assert (E : tempofs.open self ino flags w
                = (Raise (FUSEError EACCES),
                   logging w WARNING (OnlyReadSupported flags)))
      by (unfold tempofs.open; now rewrite (write_intent_true flags I)).
    rewrite E. cbn [fst snd].
    split; [split; [intros _; exact I | reflexivity] |].
    split; [split; [intros D; discriminate D | intros [N _]; contradiction] |].
    split; [intros status D; discriminate D |].
    intros g N. contradiction.
  - pose proof (write_intent_false flags N) as Hro.
    destruct (tempofs.find self ino) as [g | e] eqn:F.
    + rewrite (open_read_only self ino flags w g Hro F).
      assert (Hino : webfile.inode g = ino)
        by (now destruct (find_in_found _ _ _ F)).
      assert (E : fst (webfile.getfileinfo g w)
                  = Ok (mkFileInfo ino true
                          (negb (bool_decide
                                   (headers (net w (sent w) (HEAD (webfile.url g)))
                                      !! "Accept-Ranges" = Some "bytes"))))
                  /\ sent (snd (webfile.getfileinfo g w))
                     = sent w ++ [HEAD (webfile.url g)]).
      { rewrite getfileinfo_eval, <- Hino.
        destruct (headers _ !! "Accept-Ranges") as [v |]; [| now split].
        destruct (decide (v = "bytes")) as [-> | Hv].
        - rewrite !bool_decide_eq_true_2 by reflexivity. now split.
        - rewrite (bool_decide_eq_false_2 (v = "bytes")) by assumption.
          rewrite (bool_decide_eq_false_2 (Some v = Some "bytes")) by congruence.
          now destruct (bool_decide (v ∈ webfile.silent_values)). }
      destruct E as [E1 E2]. rewrite E1.
      split; [split; [intros D; discriminate D | intros I; contradiction] |].
      split; [split; [intros D; discriminate D | intros [_ D]; discriminate D] |].
      split; [intros status D; discriminate D |].
      intros g' _ [= <-]. now split.
    + apply find_in_raises in F as He. subst e.
      assert (E : tempofs.open self ino flags w = (Raise (FUSEError ENOENT), w)).
      { unfold tempofs.open. rewrite Hro.
        unfold try_except, bind, of_result. now rewrite F. }
      rewrite E. cbn [fst snd].
      split; [split; [intros D; discriminate D | intros I; contradiction] |].
      split; [split; [intros _; now split | reflexivity] |].
      split; [intros status D; discriminate D |].
      intros g _ D. discriminate D.
Qed.

Lemma py_index_from_end {A} (l : list A) i x :
  - len l <= i < 0 -> l !! Z.to_nat (len l + i) = Some x ->
  py_index l i = Ok x.
Proof.
  intros Hi Hx. unfold py_index.
  destruct (Z.ltb_spec i 0); [| lia].
  destruct (Z.ltb_spec (i + len l) 0); [lia |].
  destruct (Z.leb_spec (len l) (i + len l)); [lia |]. cbn.
  now rewrite Z.add_comm, Hx.
Qed.

Lemma py_index_before_start {A} (l : list A) i :
  i < - len l -> py_index l i = Raise IndexError.
Proof.
  intros Hi. unfold py_index. pose proof (len_nonneg l).
  destruct (Z.ltb_spec i 0); [| lia].
  now destruct (Z.ltb_spec (i + len l) 0); [| lia].
Qed.

(** A negative start index counts from the end of the registry, as a Python
    index does: for [-count <= start < 0], [readdir] replies the entry at
    [count + start] (ASCII name, successful probe) with the resume index
    [start + 1]; below [-count] it raises FUSEError(ENOENT). *)
Theorem readdir_negative_start self w start :
  let count := len (tempofs.files self) in
  (- count <= start < 0 ->
   forall g attr,
     tempofs.files self !! Z.to_nat (count + start) = Some g ->
     is_ascii (webfile.name g) ->
     fst (webfile.getattr g w) = Ok attr ->
     tempofs.readdir self ROOT_INODE start w
     = (Ok tt,
        replying (sending w (HEAD (webfile.url g)))
          (mkDirent (ascii_bytes (webfile.name g)) attr (start + 1))))
  /\ (start < - count ->
      tempofs.readdir self ROOT_INODE start w = (Raise (FUSEError ENOENT), w)).
Proof.
  intros count. subst count. split.
  - intros Hs g attr Hg Ha Hattr. unfold tempofs.readdir. rewrite root_is_root.
    unfold try_except, bind, of_result.
    rewrite (py_index_from_end _ _ _ Hs Hg), (encode_ascii_ok _ Ha).
    pose proof (getattr_sends g w) as Hw.
    destruct (webfile.getattr g w) as [r w1]. cbn in Hattr, Hw. subst r w1.
    reflexivity.
  - intros Hs. unfold tempofs.readdir. rewrite root_is_root.
    unfold try_except, bind, of_result.
    now rewrite (py_index_before_start _ _ Hs).
Qed.

(** Directory handles.  [opendir] succeeds for the root identifier only,
    returns it as the handle and touches nothing; [readdir] on any other
    handle fails its assertion before anything is sent or replied. *)
Theorem directory_handles self w :
  tempofs.opendir self ROOT_INODE w = (Ok ROOT_INODE, w)
  /\ (forall ino, ino <> ROOT_INODE ->
        tempofs.opendir self ino w = (Raise (FUSEError ENOENT), w))
  /\ (forall handle start, handle <> ROOT_INODE ->
        tempofs.readdir self handle start w = (Raise AssertionError, w)).
Proof.
  split; [| split].
  - unfold tempofs.opendir. now rewrite Z.eqb_refl.
  - intros ino N. unfold tempofs.opendir.
    now destruct (Z.eqb_spec ino ROOT_INODE).
  - intros handle start N. unfold tempofs.readdir.
    now destruct (Z.eqb_spec handle ROOT_INODE).
Qed.

End BridgeMore.

(** Round trip through the bridge.  Against a server that holds [body] and
    honours byte ranges, [read] of [size > 0] bytes at an offset inside the
    resource returns the bytes of [body] from that offset, at most [size]
    of them and fewer only at its end. *)
Theorem bridge_read_returns_resource body accept_ranges self handle off sz w g :
  tempofs.find self handle = Ok g ->
  net w = range_server body accept_ranges ->
  0 <= off < len body -> 0 < sz ->
  fst (tempofs.read self handle off sz w) = Ok (chunk body off sz)
  /\ len (chunk body off sz) = Z.min sz (len body - off).
Proof.
  intros F Hnet Hoff Hsz.
  rewrite (bridge_read_eval self handle off sz w g F). cbn [fst].
  rewrite Hnet. unfold chunk. cbn.
  destruct (Z.leb_spec 0 off); [| lia].
  destruct (Z.leb_spec off (off + sz - 1)); [| lia].
  destruct (Z.ltb_spec off (len body)); [| lia].
  destruct (Z.ltb_spec sz 0); [lia |]. cbn.
  replace (off + sz - 1 - off + 1) with sz by lia.
  split; [reflexivity |].
  unfold len in *. rewrite length_take, length_drop. lia.
Qed.

Lemma getattr_contract_witness :
  fst (@tempofs.getattr linux two_files 3 (quiet (range_server hello None)))
  = Ok (mkEntry 3 0x8124 5 0 0 0 1000 1000)
  /\ Z.land 0x8124 0xdb = 0.
Proof.
  destruct (@getattr_contract linux two_files 3 (quiet (range_server hello None)))
    as [_ C].
  destruct (C ltac:(discriminate) (webfile.mk 3 "b" "http://h/b") eq_refl)
    as [_ A].
  destruct (A (mkEntry 3 0x8124 5 0 0 0 1000 1000) eq_refl)
    as (_ & _ & Hbits & _).
  split; [reflexivity | exact Hbits].
Defined.

Lemma open_outcomes_witness :
  fst (@tempofs.open linux two_files 9 0 (quiet (not_found_server hello)))
  = Raise (FUSEError ENOENT)
  /\ fst (@tempofs.open linux two_files 2 0x8000
            (quiet (not_found_server hello)))
     = Ok (mkFileInfo 2 true true).
Proof.
  assert (RO : forall flags, In flags [0; 0x8000] ->
                 ~ @has_write_intent linux flags).
  { intros flags [<- | [<- | []]]; unfold has_write_intent; cbn; tauto. }
  split.
  - apply (proj2 (proj1 (proj2 (@open_outcomes linux two_files 9 0
                                  (quiet (not_found_server hello)))))).
    split; [apply RO; now left | reflexivity].
  - exact (proj1 (proj2 (proj2 (proj2 (@open_outcomes linux two_files 2 0x8000
                                         (quiet (not_found_server hello)))))
                    (webfile.mk 2 "a" "http://h/a")
                    (RO 0x8000 ltac:(right; now left)) eq_refl)).
Defined.

Lemma readdir_negative_start_witness :
  observe (@tempofs.readdir linux two_files (@ROOT_INODE linux) (-1)
             (quiet (range_server hello None)))
  = (Ok tt, [HEAD "http://h/b"], [],
     [mkDirent [x62] (mkEntry 3 0x8124 5 0 0 0 0 0) 0]).
Proof.
  destruct (@readdir_negative_start linux two_files
              (quiet (range_server hello None)) (-1)) as [C _].
  now rewrite (C ltac:(unfold len; cbn; lia) (webfile.mk 3 "b" "http://h/b")
                 (mkEntry 3 0x8124 5 0 0 0 0 0) eq_refl eq_refl eq_refl).
Defined.

Lemma directory_handles_witness :
  @tempofs.readdir linux two_files 2 0 (quiet (range_server hello None))
  = (Raise AssertionError, quiet (range_server hello None)).
Proof.
  exact (proj2 (proj2 (@directory_handles linux two_files
                         (quiet (range_server hello None))))
           2 0 ltac:(discriminate)).
Defined.

Lemma bridge_read_returns_resource_witness :
  fst (tempofs.read two_files 2 3 20 (quiet (range_server hello None)))
  = Ok [x6c; x6f].
Proof.
  exact (proj1 (bridge_read_returns_resource hello None two_files 2 3 20
                  (quiet (range_server hello None))
                  (webfile.mk 2 "a" "http://h/a") eq_refl eq_refl
                  ltac:(unfold len; cbn; lia) ltac:(lia))).
Defined.

Lemma requests_only_from_reads_example :
  sent (snd (perform_all [Seek 1 0; Read 2; Tell; Seekable; Read 0; ReadInto [x00]]
               (stream_at 0 None, quiet (range_server hello None))))
  = [GET "http://h/f" 1 2; GET "http://h/f" 3 3].
Proof. reflexivity. Qed.

(** ** Listing a configuration *)

Lemma names_of_entries `{Platform} (items : list (string * string)) : forall k,
  names_of (imap (fun j => entry_of (k + j)) items)
  = map (fun item => ascii_bytes (fst item)) items.
Proof.
  induction items as [| it items IH]; intros k; [reflexivity |].
  cbn [imap names_of map]. cbn [entry_of webfile.name]. f_equal.
  rewrite (imap_ext _ (fun j => entry_of (S k + j)))
    by (intros j x _; cbn; f_equal; lia).
  apply IH.
Qed.

(** From configuration to listing.  For a configuration whose names are
    ASCII and whose files can all be probed, a caller that lists the root of
    the registry built from it, starting at 0 and resuming where each reply
    says, receives the configured names, each once and in the order of the
    configuration, and is stopped by ENOENT at the number of items. *)
Theorem listing_of_configuration `{Platform} (config : list (string * string))
  (w : world) (fuel : nat) :
  (forall item, item ∈ config -> is_ascii (fst item)) ->
  probes_succeed (tempofs.init config) w ->
  (length config < fuel)%nat ->
  exists w',
    list_root fuel (tempofs.init config) 0 w = Some (len config, w')
    /\ map d_name (replied w')
       = map d_name (replied w)
         ++ map (fun item => ascii_bytes (fst item)) config.
Proof.
  intros Hascii Hprobe Hfuel.
  assert (Hlen : length (tempofs.files (tempofs.init config)) = length config)
    by (rewrite init_files; apply length_imap).
  destruct (list_root_suffix (tempofs.init config) w
              (tempofs.files (tempofs.init config)) [] w fuel eq_refl)
    as (w' & Hrun & Hnames).
  - intros f Hf. rewrite init_files in Hf.
    apply elem_of_lookup_imap in Hf as (i & item & -> & Hi).
    cbn. apply Hascii. now apply list_elem_of_lookup_2 in Hi.
  - exact Hprobe.
  - reflexivity.
  - lia.
  - exists w'. unfold len in *. rewrite Hlen in Hrun. split; [exact Hrun |].
    rewrite Hnames, init_files. f_equal.
    exact (names_of_entries config 0).
Qed.

Lemma listing_of_configuration_witness :
  exists w',
    @list_root linux 5 (@tempofs.init linux [("a", "http://h/a"); ("b", "http://h/b")])
      0 (quiet (range_server hello None))
    = Some (2, w')
    /\ map d_name (replied w') = [[x61]; [x62]].
Proof.
  apply (@listing_of_configuration linux
           [("a", "http://h/a"); ("b", "http://h/b")]
           (quiet (range_server hello None)) 5).
  - intros item Hi.
    repeat (apply elem_of_cons in Hi as [-> | Hi]; [reflexivity |]).
    now apply elem_of_nil in Hi.
  - exact example_probes_succeed.
  - cbn. lia.
Defined.
